(** * Movie recommendation backend: a shallow embedding and its properties

    The development follows the Python sources module by module:
    [recommender] (TF-IDF neighbours, trending, search, posters, titles),
    [database] (the SQLite user table) and [main] (the FastAPI routes).

    Conventions.
    - A Python [str] is a [string] whose characters are code points below
      256 (Latin-1); [lower] and [strip] are Python's on that range.
    - A pandas cell that may be missing (NaN) is an [option]; [None] is NaN.
    - Finite floats are compared as rationals ([Q]); sums of products are
      exact, rounding is not modelled.
    - A Python [int] is a [Z]; slices follow Python's rules for negative
      and out-of-range bounds.
    - A call either returns, raises, or leaves the modelled fragment of the
      regular-expression syntax ([Unmodelled]). *)

From Stdlib Require Import List ZArith QArith Lia Permutation Sorted Bool Ascii String.
From stdpp Require Import gmap strings.
Import ListNotations.

(** ** Python strings *)

Module pystr.

(** [str.lower] on one code point: A-Z and the Latin-1 capitals. *)
Definition lower_char (c : ascii) : ascii :=
  let n := nat_of_ascii c in
  if ((65 <=? n) && (n <=? 90)) || ((192 <=? n) && (n <=? 222) && negb (n =? 215))
  then ascii_of_nat (n + 32) else c.

Fixpoint lower (s : string) : string :=
  match s with
  | EmptyString => EmptyString
  | String c s' => String (lower_char c) (lower s')
  end.

(** [str.isspace] on one code point. *)
Definition isspace (c : ascii) : bool :=
  let n := nat_of_ascii c in
  ((9 <=? n) && (n <=? 13)) || ((28 <=? n) && (n <=? 32)) || (n =? 133) || (n =? 160).

Fixpoint lstrip (s : string) : string :=
  match s with
  | EmptyString => EmptyString
  | String c s' => if isspace c then lstrip s' else s
  end.

Fixpoint rstrip (s : string) : string :=
  match s with
  | EmptyString => EmptyString
  | String c s' =>
      match rstrip s' with
      | EmptyString => if isspace c then EmptyString else String c EmptyString
      | r => String c r
      end
  end.

(** [s.strip()] with no argument. *)
Definition strip (s : string) : string := rstrip (lstrip s).

(** [s[:k]] for a non-negative [k]. *)
Definition take (k : nat) (s : string) : string := String.substring 0 k s.

(** [p in s]: literal substring test. *)
Fixpoint str_in (p s : string) : bool :=
  String.prefix p s ||
  match s with
  | EmptyString => false
  | String _ s' => str_in p s'
  end.

(** Every character of [s] is white space. *)
Fixpoint all_space (s : string) : bool :=
  match s with
  | EmptyString => true
  | String c s' => isspace c && all_space s'
  end.

End pystr.

(** ** Outcomes of a call *)

Inductive exn : Type :=
| re_error                      (* re.error, raised by re.compile *)
| IndexError                    (* positional indexer out of bounds *)
| ValueError                    (* bcrypt.checkpw on a hash that is no bcrypt hash *)
| HTTPException (status : Z).   (* fastapi.HTTPException(status, ...) *)

Inductive outcome (A : Type) : Type :=
| Returns (a : A)
| Raises (e : exn)
| Unmodelled.

Arguments Returns {A} a.
Arguments Raises {A} e.
Arguments Unmodelled {A}.

Definition obind {A B} (o : outcome A) (k : A -> outcome B) : outcome B :=
  match o with
  | Returns a => k a
  | Raises e => Raises e
  | Unmodelled => Unmodelled
  end.

Notation "'do' x <- o ; k" := (obind o (fun x => k))
  (at level 10, x name, o at level 100, k at level 200).

Fixpoint omapM {A B} (f : A -> outcome B) (l : list A) : outcome (list B) :=
  match l with
  | [] => Returns []
  | a :: l' => do b <- f a; do bs <- omapM f l'; Returns (b :: bs)
  end.

(** ** Regular expressions: the fragment of Python's [re] that is modelled

    pandas' [Series.str.contains(pat)] compiles [pat] with [re.compile]
    (its [regex] argument defaults to [True]) and keeps the cells where
    [pattern.search] finds a match.  The fragment covers literal
    characters, [.], escaped punctuation, groups, [|], and the greedy
    quantifiers [*], [+], [?].  Character classes, anchors, counted
    repetition, letter and digit escapes, group extensions and a
    quantifier applied to a quantifier fall outside it. *)

Module re.

Inductive regex : Type :=
| Void                       (* matches nothing *)
| Eps                        (* matches the empty string *)
| Chr (c : ascii)
| Dot                        (* any character but a newline *)
| Cat (r1 r2 : regex)
| Alt (r1 r2 : regex)
| Star (r : regex).

Inductive parsed : Type :=
| POk (r : regex)
| PError                     (* re.compile raises re.error *)
| PUnsupported.              (* outside the modelled fragment *)

(** A group being read: finished alternatives (latest first) and the
    items of the current one (latest first, with a flag telling that the
    item already carries a quantifier).  [opened] holds until something
    follows the opening parenthesis. *)
Record frame : Type := {
  alts : list regex;
  items : list (regex * bool);
  opened : bool
}.

Definition empty_frame (o : bool) : frame :=
  {| alts := []; items := []; opened := o |}.

Definition seq_of (its : list (regex * bool)) : regex :=
  fold_left (fun acc it => Cat (fst it) acc) its Eps.

Definition close (f : frame) : regex :=
  fold_left (fun acc a => Alt a acc) (alts f) (seq_of (items f)).

Definition push (r : regex) (q : bool) (f : frame) : frame :=
  {| alts := alts f; items := (r, q) :: items f; opened := false |}.

Definition quantify (c : ascii) (r : regex) : regex :=
  if Ascii.eqb c "*" then Star r
  else if Ascii.eqb c "+" then Cat r (Star r)
  else Alt r Eps.

Definition is_alnum (c : ascii) : bool :=
  let n := nat_of_ascii c in
  ((48 <=? n) && (n <=? 57)) || ((65 <=? n) && (n <=? 90)) || ((97 <=? n) && (n <=? 122)).

Definition is_quantifier (c : ascii) : bool :=
  Ascii.eqb c "*" || Ascii.eqb c "+" || Ascii.eqb c "?".

Definition is_unsupported (c : ascii) : bool :=
  Ascii.eqb c "[" || Ascii.eqb c "^" || Ascii.eqb c "$" || Ascii.eqb c "{".

(** The characters with a meaning of their own in a pattern. *)
Definition is_special (c : ascii) : bool :=
  Ascii.eqb c "." || Ascii.eqb c "\" || Ascii.eqb c "(" || Ascii.eqb c ")" ||
  Ascii.eqb c "|" || is_quantifier c || is_unsupported c.

(** One pass over the pattern. [stack] holds the enclosing groups,
    [cur] the innermost one, [esc] that a backslash was just read. *)
Fixpoint parse_from (stack : list frame) (cur : frame) (esc : bool) (pat : string) : parsed :=
  match pat with
  | EmptyString =>
      if esc then PError                      (* bad escape (end of pattern) *)
      else match stack with
           | [] => POk (close cur)
           | _ :: _ => PError                 (* missing ), unterminated subpattern *)
           end
  | String c rest =>
      if esc then
        if is_alnum c then PUnsupported
        else parse_from stack (push (Chr c) false cur) false rest
      else if Ascii.eqb c "\" then parse_from stack cur true rest
      else if Ascii.eqb c "(" then parse_from (cur :: stack) (empty_frame true) false rest
      else if Ascii.eqb c ")" then
        match stack with
        | [] => PError                        (* unbalanced parenthesis *)
        | parent :: stack' => parse_from stack' (push (close cur) false parent) false rest
        end
      else if Ascii.eqb c "|" then
        parse_from stack
          {| alts := seq_of (items cur) :: alts cur; items := []; opened := false |}
          false rest
      else if is_quantifier c then
        match items cur with
        | [] =>
            if Ascii.eqb c "?" && opened cur then PUnsupported   (* (?...) extension *)
            else PError                                         (* nothing to repeat *)
        | (_, true) :: _ => PUnsupported
        | (r, false) :: its =>
            parse_from stack
              {| alts := alts cur; items := (quantify c r, true) :: its; opened := false |}
              false rest
        end
      else if Ascii.eqb c "." then parse_from stack (push Dot false cur) false rest
      else if is_unsupported c then PUnsupported
      else parse_from stack (push (Chr c) false cur) false rest
  end.

(** [re.compile(pat)]. *)
Definition compile (pat : string) : parsed :=
  parse_from [] (empty_frame false) false pat.

Fixpoint nullable (r : regex) : bool :=
  match r with
  | Void => false
  | Eps => true
  | Chr _ => false
  | Dot => false
  | Cat r1 r2 => nullable r1 && nullable r2
  | Alt r1 r2 => nullable r1 || nullable r2
  | Star _ => true
  end.

(** Brzozowski derivative: what is left to match after reading [c]. *)
Fixpoint deriv (c : ascii) (r : regex) : regex :=
  match r with
  | Void => Void
  | Eps => Void
  | Chr d => if Ascii.eqb c d then Eps else Void
  | Dot => if Ascii.eqb c "010" then Void else Eps
  | Cat r1 r2 =>
      if nullable r1 then Alt (Cat (deriv c r1) r2) (deriv c r2)
      else Cat (deriv c r1) r2
  | Alt r1 r2 => Alt (deriv c r1) (deriv c r2)
  | Star r1 => Cat (deriv c r1) (Star r1)
  end.

(** Some prefix of [s] matches [r] ([pattern.match]). *)
Fixpoint match_prefix (r : regex) (s : string) : bool :=
  nullable r ||
  match s with
  | EmptyString => false
  | String c s' => match_prefix (deriv c r) s'
  end.

(** Some substring of [s] matches [r] ([pattern.search(s) is not None]). *)
Fixpoint search (r : regex) (s : string) : bool :=
  match_prefix r s ||
  match s with
  | EmptyString => false
  | String _ s' => search r s'
  end.

End re.

(** ** pandas and Python list helpers *)

Module py.

(** A slice bound brought into [0 .. len]. *)
Definition bound (len i : Z) : Z :=
  if (i <? 0)%Z then Z.max 0 (i + len) else Z.min i len.

(** [l[start:stop]]; also [DataFrame.iloc[start:stop]]. *)
Definition slice {A} (l : list A) (start stop : Z) : list A :=
  let len := Z.of_nat (length l) in
  let a := bound len start in
  let b := bound len stop in
  firstn (Z.to_nat (b - a)) (skipn (Z.to_nat a) l).

(** [enumerate(l)]. *)
Definition enumerate {A} (l : list A) : list (nat * A) :=
  combine (seq 0 (length l)) l.

(** Insertion of [x], which precedes every element of [l] in the
    input, into the sorted [l]: [x] goes after the elements [y] with
    [ahead y x]. *)
Fixpoint insert {A} (ahead : A -> A -> bool) (x : A) (l : list A) : list A :=
  match l with
  | [] => [x]
  | y :: l' => if ahead y x then y :: insert ahead x l' else x :: l
  end.

Definition sort_with {A} (ahead : A -> A -> bool) (l : list A) : list A :=
  fold_right (insert ahead) [] l.

(** [sorted(l, key=key, reverse=True)]: descending, and stable (equal
    keys keep their input order, also with [reverse]). *)
Definition sorted_desc {A} (key : A -> Q) (l : list A) : list A :=
  sort_with (fun y x => negb (Qle_bool (key y) (key x))) l.

(** The same in ascending order: [sorted(l, key=key)]. *)
Definition sorted_asc {A} (key : A -> Q) (l : list A) : list A :=
  sort_with (fun y x => negb (Qle_bool (key x) (key y))) l.

(** [s[mask]]: boolean indexing. *)
Fixpoint select {A} (l : list A) (mask : list bool) : list A :=
  match l, mask with
  | a :: l', b :: mask' => if b then a :: select l' mask' else select l' mask'
  | _, _ => []
  end.

(** [Series.str.contains(pat, na=False)] on a column of cells: the
    pattern is compiled first, whatever the column holds. *)
Definition str_contains (pat : string) (col : list (option string)) : outcome (list bool) :=
  match re.compile pat with
  | re.PError => Raises re_error
  | re.PUnsupported => Unmodelled
  | re.POk r =>
      Returns (map (fun cell => match cell with
                                | Some s => re.search r s
                                | None => false
                                end) col)
  end.

(** [Series.str.lower()]. *)
Definition str_lower (col : list (option string)) : list (option string) :=
  map (option_map pystr.lower) col.

(** [col == s], elementwise; a missing cell compares unequal. *)
Definition eq_mask (col : list (option string)) (s : string) : list bool :=
  map (fun cell => match cell with
                   | Some t => String.eqb t s
                   | None => false
                   end) col.

(** [Series.dropna()]. *)
Fixpoint dropna {A} (col : list (option A)) : list A :=
  match col with
  | [] => []
  | Some a :: col' => a :: dropna col'
  | None :: col' => dropna col'
  end.

(** [Series.unique()]: first occurrences, in order of appearance. *)
Fixpoint unique_from (seen : list string) (l : list string) : list string :=
  match l with
  | [] => []
  | s :: l' =>
      if existsb (String.eqb s) seen then unique_from seen l'
      else s :: unique_from (s :: seen) l'
  end.

Definition unique (l : list string) : list string := unique_from [] l.

End py.

(** ** backend/models.py *)

Module models.

Record UserRegister : Type := {
  username : string;
  email : string;
  password : string
}.

(** The display record built by [_build_movie]; [MovieOut] has the same
    fields. *)
Record MovieOut : Type := {
  title : string;
  overview : string;
  genres : string;
  tagline : string;
  vote_average : Q;
  popularity : Q;
  poster_url : option string
}.

(** [UserLogin]; its fields are [username] and [password] in the source. *)
Record UserLogin : Type := {
  login_username : string;
  login_password : string
}.

(** [Token]; its fields are [access_token], [token_type] and [username]
    in the source. *)
Record Token : Type := {
  access_token : string;
  token_type : string;
  token_username : string
}.

End models.

(** ** backend/recommender.py *)

Module recommender.

(** A row of [df.pkl] as unpickled: any cell may be missing, and a
    numeric cell that does not parse counts as missing
    ([pd.to_numeric(errors="coerce")]). *)
Record RawRow : Type := {
  raw_title : option string;
  raw_overview : option string;
  raw_genres : option string;
  raw_tagline : option string;
  raw_vote_average : option Q;
  raw_popularity : option Q;
  raw_Tags : option string
}.

(** A row of [df] once [load_model] has run. The title stays a cell
    that the readers treat as possibly missing ([na=False], [dropna]). *)
Record Row : Type := {
  title : option string;
  overview : string;
  genres : string;
  tagline : string;
  vote_average : Q;
  popularity : Q
}.

(** The module's global state: [df], [indices] (a Series whose index
    holds titles and whose values are row positions) and [tfidf_matrix]
    (one vector per row of [df]). *)
Record Globals : Type := {
  df : list Row;
  indices : list (option string * nat);
  tfidf_matrix : list (list Q)
}.

Definition fillna {A} (d : A) (cell : option A) : A :=
  match cell with
  | Some a => a
  | None => d
  end.

Definition clean (r : RawRow) : Row :=
  {| title := Some (fillna EmptyString (raw_title r));
     overview := fillna EmptyString (raw_overview r);
     genres := fillna EmptyString (raw_genres r);
     tagline := fillna EmptyString (raw_tagline r);
     vote_average := fillna 0%Q (raw_vote_average r);
     popularity := fillna 0%Q (raw_popularity r) |}.

(** [load_model()]: the three pickles are its inputs; [transform] is the
    fitted vectorizer applied to one document. *)
Definition load_model (df_pkl : list RawRow) (indices_pkl : list (option string * nat))
    (transform : string -> list Q) : Globals :=
  {| df := map clean df_pkl;
     indices := indices_pkl;
     tfidf_matrix := map (fun r => transform (fillna EmptyString (raw_Tags r))) df_pkl |}.

(** [_build_movie(row)]; [str(nan)] is ["nan"]. *)
Definition _build_movie (row : Row) : models.MovieOut :=
  {| models.title := fillna "nan" (title row);
     models.overview := pystr.take 200 (overview row);
     models.genres := genres row;
     models.tagline := tagline row;
     models.vote_average := vote_average row;
     models.popularity := popularity row;
     models.poster_url := None |}.

Fixpoint dot (u v : list Q) : Q :=
  match u, v with
  | a :: u', b :: v' => (a * b + dot u' v')%Q
  | _, _ => 0%Q
  end.

(** [linear_kernel(X, Y)]: the matrix of dot products. *)
Definition linear_kernel (X Y : list (list Q)) : list (list Q) :=
  map (fun x => map (dot x) Y) X.

(** What [linear_kernel] does before multiplying: a matrix without rows
    is refused with [ValueError]. *)
Definition check_pairwise_arrays (X Y : list (list Q)) : outcome unit :=
  match X, Y with
  | [], _ | _, [] => Raises ValueError
  | _ :: _, _ :: _ => Returns tt
  end.

(** [df.iloc[positions]]: out of bounds raises. *)
Definition iloc (rows : list Row) (positions : list nat) : outcome (list Row) :=
  omapM (fun i => match nth_error rows i with
                  | Some r => Returns r
                  | None => Raises IndexError
                  end) positions.

(** Lines 105-115 of [get_recommendations]: the row position the title
    resolves to, [None] when both lookups come back empty. *)
Definition resolve_title (g : Globals) (title : string) : outcome (option nat) :=
  let title_lower := pystr.strip (pystr.lower title) in
  let labels := py.str_lower (map fst (indices g)) in
  let matches := py.select (indices g) (py.eq_mask labels title_lower) in
  do matches <- match matches with
                | [] =>
                    do mask <- py.str_contains title_lower labels;
                    Returns (py.select (indices g) mask)
                | _ :: _ => Returns matches
                end;
  match matches with
  | [] => Returns None
  | m :: _ => Returns (Some (snd m))
  end.

(** Lines 121-122 on a score array [cosine_sim]: the pairs of a position
    and its score, highest score first, equal scores in position order
    ([sorted] is stable, also with [reverse=True]). *)
Definition ranked (cosine_sim : list Q) : list (nat * Q) :=
  py.sorted_desc snd (py.enumerate cosine_sim).

(** Lines 121-125 on that array: the positions ranked second to
    [n+1]-th. *)
Definition positions_after_first (cosine_sim : list Q) (n : Z) : list nat :=
  map fst (py.slice (ranked cosine_sim) 1 (n + 1)).

(** Lines 117-123: the scores of every row against row [idx], ranked.
    The products are the exact ones; the code's are their float64
    roundings, which can tie where the exact ones differ. What is said
    of the ranking for the scores the code computed is therefore stated
    of [ranked] and [positions_after_first] on an arbitrary array. *)
Definition sim_scores (g : Globals) (idx : nat) : list (nat * Q) :=
  let cosine_sim :=
    concat (linear_kernel
              (py.slice (tfidf_matrix g) (Z.of_nat idx) (Z.of_nat idx + 1))
              (tfidf_matrix g)) in
  ranked cosine_sim.

(** Lines 123-125: [movie_indices]. *)
Definition movie_indices (g : Globals) (idx : nat) (n : Z) : list nat :=
  map fst (py.slice (sim_scores g idx) 1 (n + 1)).

(** The slice [tfidf_matrix[idx:idx+1]] has no row when [idx] is past
    the last one, and [linear_kernel] then raises before anything is
    ranked. *)
Definition get_recommendations (g : Globals) (title : string) (n : Z)
    : outcome (list models.MovieOut) :=
  do r <- resolve_title g title;
  match r with
  | None => Returns []
  | Some idx =>
      do checked <- check_pairwise_arrays
                      (py.slice (tfidf_matrix g) (Z.of_nat idx) (Z.of_nat idx + 1))
                      (tfidf_matrix g);
      do results <- iloc (df g) (movie_indices g idx n);
      Returns (map _build_movie results)
  end.

(** [df.sort_values(column, ascending=...)] on a numeric column without
    missing values: the rows by increasing or decreasing value of the
    column, rows of equal value in the order they have in [df]. That is
    the order pandas gives with a stable sort, also for
    [ascending=False]; the call leaves [kind] at its default, NumPy's
    quicksort, which keeps that order on short columns and does not
    promise it on long ones. *)
Definition sort_values (column : Row -> Q) (ascending : bool) (rows : list Row) : list Row :=
  if ascending then py.sorted_asc column rows else py.sorted_desc column rows.

Definition get_trending (g : Globals) (page per_page : Z) : list models.MovieOut :=
  let sorted_df := sort_values popularity false (df g) in
  let start := ((page - 1) * per_page)%Z in
  let end_ := (start + per_page)%Z in
  map _build_movie (py.slice sorted_df start end_).

Definition search_movies (g : Globals) (query : string) (limit : Z)
    : outcome (list models.MovieOut) :=
  let query_lower := pystr.strip (pystr.lower query) in
  do mask <- py.str_contains query_lower (py.str_lower (map title (df g)));
  Returns (map _build_movie (py.slice (py.select (df g) mask) 0 limit)).

Definition get_all_titles (g : Globals) (limit : Z) : list string :=
  py.slice (py.unique (py.dropna (map title (df g)))) 0 limit.

(** *** Posters *)

(** What [requests.get] on the search endpoint yields: an exception, or
    a response with its status and body. The body is [None] when it is
    not JSON, else the [poster_path] of each entry of ["results"]. *)
Inductive Reply : Type :=
| ConnectionFailed
| Response (status_code : Z) (json : option (list (option string))).

(** The process-wide poster state: the cache and the requests sent. *)
Record Posters : Type := {
  _poster_cache : gmap string string;
  sent : list string
}.

Definition TMDB_IMG_BASE : string := "https://image.tmdb.org/t/p/w500".

Section provider.

Variable TMDB_API_KEY : string.
(** The provider's answer to the [k]-th request sent. *)
Variable tmdb : nat -> string -> Reply.

Definition requests_get (query : string) (p : Posters) : Reply * Posters :=
  (tmdb (length (sent p)) query,
   {| _poster_cache := _poster_cache p; sent := sent p ++ [query] |}).

(** The URL read off a reply: status 200, a first result, a non-empty
    [poster_path]. *)
Definition poster_of (r : Reply) : option string :=
  match r with
  | Response 200 (Some (Some path :: _)) =>
      if String.eqb path EmptyString then None else Some (TMDB_IMG_BASE +:+ path)
  | _ => None
  end.

Definition store (title url : string) (p : Posters) : Posters :=
  {| _poster_cache := <[title := url]> (_poster_cache p); sent := sent p |}.

Definition _fetch_poster_path (title : string) (p : Posters) : string * Posters :=
  match _poster_cache p !! title with
  | Some url => (url, p)
  | None =>
      if String.eqb TMDB_API_KEY EmptyString then (EmptyString, p)
      else
        let (resp, p) := requests_get title p in
        match poster_of resp with
        | Some url => (url, store title url p)
        | None => (EmptyString, store title EmptyString p)
        end
  end.

Definition get_poster_url (title : string) (p : Posters) : string * Posters :=
  if String.eqb TMDB_API_KEY EmptyString then (EmptyString, p)
  else
    let (resp, p) := requests_get title p in
    match poster_of resp with
    | Some url => (url, p)
    | None => (EmptyString, p)
    end.

End provider.

End recommender.

(** ** backend/database.py *)

Module database.

(** A row of the [users] table; [username] and [email] are UNIQUE. *)
Record User : Type := {
  username : string;
  email : string;
  hashed_password : string;
  created_at : string
}.

Inductive statement : Type :=
| SelectByUsername (u : string)
| SelectByEmail (e : string)
| Insert (u e : string).

(** The table and the statements executed against it so far. *)
Record DB : Type := {
  users : list User;
  executed : list statement
}.

Definition execute (s : statement) (db : DB) : DB :=
  {| users := users db; executed := executed db ++ [s] |}.

Definition get_user_by_username (u : string) (db : DB) : option User * DB :=
  (find (fun row => String.eqb (username row) u) (users db),
   execute (SelectByUsername u) db).

Definition get_user_by_email (e : string) (db : DB) : option User * DB :=
  (find (fun row => String.eqb (email row) e) (users db),
   execute (SelectByEmail e) db).

(** [create_user]: the INSERT fails with [IntegrityError] when a UNIQUE
    column would repeat; the function then returns [False]. *)
Definition create_user (u e h now : string) (db : DB) : bool * DB :=
  let db := execute (Insert u e) db in
  if existsb (fun row => String.eqb (username row) u || String.eqb (email row) e) (users db)
  then (false, db)
  else (true,
        {| users := users db ++ [ {| username := u; email := e;
                                     hashed_password := h; created_at := now |} ];
           executed := executed db |}).

End database.

(** ** backend/auth.py *)

Module auth.

Section primitives.

(** [hashlib.sha256(...).hexdigest()], [bcrypt.hashpw] with the salt that
    [bcrypt.gensalt()] drew, [bcrypt.checkpw], and [jwt.encode] /
    [jwt.decode] under the secret key: inputs of the model.
    [bcrypt.checkpw] yields nothing when it raises [ValueError], which it
    does for a stored hash that is not a bcrypt hash. A token carries its
    subject and its expiry time; decoding yields the payload's ["sub"]
    entry, or nothing when [JWTError] is raised. *)
Variable sha256_hex : string -> string.
Variable bcrypt_hashpw : string -> string -> string.
Variable bcrypt_checkpw : string -> string -> option bool.
Variable jwt_encode : option string -> Z -> string.
Variable jwt_decode : string -> option (option string).

Definition ACCESS_TOKEN_EXPIRE_MINUTES : Z := 60 * 24.

Definition _prepare_password (password : string) : string := sha256_hex password.

Definition hash_password (salt : string) (password : string) : string :=
  bcrypt_hashpw (_prepare_password password) salt.

Definition verify_password (plain_password hashed_password : string) : option bool :=
  bcrypt_checkpw (_prepare_password plain_password) hashed_password.

(** [timedelta(minutes=m)], in microseconds. *)
Definition minutes (m : Z) : Z := (m * 60000000)%Z.

(** [create_access_token(data={"sub": sub})]: [utcnow] is the clock and
    [expires_delta] the optional lifetime, both in microseconds; a zero
    [timedelta] is falsy, so [expires_delta or ...] replaces it by the
    default. *)
Definition create_access_token (utcnow : Z) (sub : option string) (expires_delta : option Z)
    : string :=
  let lifetime := match expires_delta with
                  | Some d => if (d =? 0)%Z then minutes ACCESS_TOKEN_EXPIRE_MINUTES else d
                  | None => minutes ACCESS_TOKEN_EXPIRE_MINUTES
                  end in
  jwt_encode sub (utcnow + lifetime)%Z.

Definition get_current_user (token : string) : outcome string :=
  match jwt_decode token with
  | Some (Some username) => Returns username
  | Some None => Raises (HTTPException 401)
  | None => Raises (HTTPException 401)
  end.

End primitives.

End auth.

(** ** backend/main.py *)

Module main.

Section routes.

(** [hash_password] salts at random and [datetime.utcnow()] reads the
    clock: both are inputs here. *)
Variable hash_password : string -> string.
Variable utcnow : string.

(** [POST /api/register]. *)
Definition register (user : models.UserRegister) (db : database.DB)
    : outcome string * database.DB :=
  if (String.length (models.username user) <? 3)%nat then
    (Raises (HTTPException 400), db)
  else if (String.length (models.password user) <? 6)%nat then
    (Raises (HTTPException 400), db)
  else
    let (found, db) := database.get_user_by_username (models.username user) db in
    match found with
    | Some _ => (Raises (HTTPException 409), db)
    | None =>
        let (found, db) := database.get_user_by_email (models.email user) db in
        match found with
        | Some _ => (Raises (HTTPException 409), db)
        | None =>
            let hashed := hash_password (models.password user) in
            let (success, db) :=
              database.create_user (models.username user) (models.email user)
                hashed utcnow db in
            if success then (Returns "Account created successfully! Please log in.", db)
            else (Raises (HTTPException 500), db)
        end
    end.

End routes.

(** [GET /api/movies/recommend/{title}], past the identity check; a
    query parameter out of its declared range is answered 422. *)
Definition recommend_movies (g : recommender.Globals) (title : string) (n : Z)
    : outcome (string * list models.MovieOut) :=
  if ((n <? 1) || (30 <? n))%Z then Raises (HTTPException 422)
  else
    do movies <- recommender.get_recommendations g title n;
    match movies with
    | [] => Raises (HTTPException 404)
    | _ :: _ => Returns (title, movies)
    end.

Section login_route.

(** [verify_password] and [create_access_token] of [auth], the latter
    applied to the subject; [verify_password] yields nothing when
    [bcrypt.checkpw] raises [ValueError]. *)
Variable verify_password : string -> string -> option bool.
Variable create_access_token : string -> string.

(** [POST /api/login]; the password is only checked when a row was
    found ([not db_user or not verify_password(...)]), and an exception
    of the check is not caught. *)
Definition login (user : models.UserLogin) (db : database.DB)
    : outcome models.Token * database.DB :=
  let (db_user, db) := database.get_user_by_username (models.login_username user) db in
  match db_user with
  | None => (Raises (HTTPException 401), db)
  | Some row =>
      match verify_password (models.login_password user) (database.hashed_password row) with
      | Some true =>
          (Returns {| models.access_token := create_access_token (database.username row);
                      models.token_type := "bearer";
                      models.token_username := database.username row |}, db)
      | Some false => (Raises (HTTPException 401), db)
      | None => (Raises ValueError, db)
      end
  end.

End login_route.

(** [GET /api/movies/trending], past the identity check. *)
Definition trending_movies (g : recommender.Globals) (page per_page : Z)
    : outcome (list models.MovieOut * Z) :=
  if ((page <? 1) || (per_page <? 1) || (50 <? per_page))%Z then Raises (HTTPException 422)
  else Returns (recommender.get_trending g page per_page, page).

(** [GET /api/movies/search], past the identity check; [q] has
    [min_length=1] and the limit is left at its default. *)
Definition search_movies (g : recommender.Globals) (q : string)
    : outcome (list models.MovieOut * string) :=
  if (String.length q <? 1)%nat then Raises (HTTPException 422)
  else
    do movies <- recommender.search_movies g q 20;
    Returns (movies, q).

(** [GET /api/movies/titles]. *)
Definition all_titles (g : recommender.Globals) : list string :=
  recommender.get_all_titles g 50000.

(** What [http_requests.get(url, timeout=10)] yields in [img_proxy]. *)
Inductive Fetched : Type :=
| TimedOut                         (* requests.exceptions.Timeout *)
| Failed                           (* any other exception *)
| Got (status_code : Z) (content : string) (content_type : option string).

Record ImageResponse : Type := {
  content : string;
  media_type : string;
  cache_control : string
}.

(** [GET /api/img-proxy]: the outcome and the URLs fetched. The
    [HTTPException] raised for a status other than 200 is raised inside
    the [try] block and caught by [except Exception]. *)
Definition img_proxy (http_get : string -> Fetched) (url : string)
    : outcome ImageResponse * list string :=
  if negb (String.prefix "https://image.tmdb.org/" url) then (Raises (HTTPException 400), [])
  else
    (match http_get url with
     | Got status_code body content_type =>
         if (status_code =? 200)%Z then
           Returns {| content := body;
                      media_type := recommender.fillna "image/jpeg" content_type;
                      cache_control := "public, max-age=86400" |}
         else Raises (HTTPException 502)
     | TimedOut => Raises (HTTPException 504)
     | Failed => Raises (HTTPException 502)
     end, [url]).

End main.

(** ** A small catalogue, used to run the code *)

Module sample.

Definition raw (t : option string) (tags : option string) (pop : Q) : recommender.RawRow :=
  {| recommender.raw_title := t;
     recommender.raw_overview := None;
     recommender.raw_genres := None;
     recommender.raw_tagline := None;
     recommender.raw_vote_average := None;
     recommender.raw_popularity := Some pop;
     recommender.raw_Tags := tags |}.

(** Two films share their tags, as duplicates and sequels do. *)
Definition df_pkl : list recommender.RawRow :=
  [ raw (Some "Alien") (Some "space horror") 9;
    raw (Some "Aliens") (Some "space horror") 7;
    raw (Some "Up") (Some "balloon") 9;
    raw (Some "(500) Days of Summer") (Some "romance") 7 ].

Definition indices_pkl : list (option string * nat) :=
  [ (Some "Alien", 0); (Some "Aliens", 1); (Some "Up", 2);
    (Some "(500) Days of Summer", 3) ].

(** A fitted vectorizer over a three-word vocabulary; its rows have
    unit length, as TF-IDF rows do. *)
Definition transform (tags : string) : list Q :=
  if String.eqb tags "space horror" then [1; 0; 0]%Q
  else if String.eqb tags "balloon" then [0; 1; 0]%Q
  else if String.eqb tags "romance" then [0; 0; 1]%Q
  else [0; 0; 0]%Q.

Definition g : recommender.Globals :=
  recommender.load_model df_pkl indices_pkl transform.

(** A catalogue in which a title comes back, as a remake does. *)
Definition g_remake : recommender.Globals :=
  recommender.load_model
    [ raw (Some "Up") (Some "balloon") 9;
      raw (Some "Alien") (Some "space horror") 9;
      raw (Some "Up") (Some "balloon") 5 ]
    [ (Some "Up", 0); (Some "Alien", 1); (Some "Up", 2) ]
    transform.

(** The same catalogue with one title missing. *)
Definition g_untitled : recommender.Globals :=
  recommender.load_model
    [ raw (Some "Alien") (Some "space horror") 9;
      raw None (Some "space horror") 7;
      raw (Some "Up") (Some "balloon") 9 ]
    [ (Some "Alien", 0); (None, 1); (Some "Up", 2) ]
    transform.

(** A catalogue of one film. *)
Definition g_single : recommender.Globals :=
  recommender.load_model
    [ raw (Some "Alien") (Some "space horror") 9 ]
    [ (Some "Alien", 0) ]
    transform.

(** A catalogue in which a title ends in a blank. *)
Definition g_blank : recommender.Globals :=
  recommender.load_model
    [ raw (Some "Avatar 2") (Some "space horror") 9;
      raw (Some "Avatar ") (Some "balloon") 7 ]
    [ (Some "Avatar 2", 0); (Some "Avatar ", 1) ]
    transform.

(** A catalogue of two films whose titles are missing. *)
Definition g_nameless : recommender.Globals :=
  recommender.load_model
    [ raw None (Some "space horror") 9; raw None (Some "balloon") 7 ]
    [ (None, 0); (None, 1) ]
    transform.

(** A provider that always answers with one poster. *)
Definition tmdb (k : nat) (query : string) : recommender.Reply :=
  recommender.Response 200 (Some [Some "/alien.jpg"]).

Definition no_posters : recommender.Posters :=
  {| recommender._poster_cache := ∅; recommender.sent := [] |}.

Definition alice : database.User :=
  {| database.username := "alice";
     database.email := "alice@example.org";
     database.hashed_password := "$2b$12$";
     database.created_at := "2024-01-01T00:00:00" |}.

Definition db : database.DB :=
  {| database.users := [alice]; database.executed := [] |}.

Definition hash_password (pw : string) : string := "$2b$12$" +:+ pw.

(** Stand-ins for the hashing primitives: checking accepts exactly what
    hashing produced, and fails on a hash without the bcrypt prefix. *)
Definition sha256_hex (s : string) : string := "sha256:" +:+ s.
Definition bcrypt_hashpw (pw salt : string) : string := salt +:+ pw.
Definition bcrypt_checkpw (pw hashed : string) : option bool :=
  if String.prefix "$2b$" hashed then Some (String.eqb hashed ("$2b$12$" +:+ pw))
  else None.

(** A table holding a row whose stored hash is not a bcrypt hash. *)
Definition db_legacy : database.DB :=
  {| database.users :=
       [ {| database.username := "dave";
            database.email := "dave@example.org";
            database.hashed_password := "plaintext";
            database.created_at := "2019-01-01T00:00:00" |} ];
     database.executed := [] |}.

Definition bob : models.UserRegister :=
  {| models.username := "bob"; models.email := "bob@example.org";
     models.password := "secret1" |}.

(** Stand-ins for the token codec: decoding gives back the subject. *)
Definition jwt_encode (sub : option string) (exp : Z) : string :=
  match sub with
  | Some s => "u:" +:+ s
  | None => EmptyString
  end.

Definition jwt_decode (token : string) : option (option string) :=
  match token with
  | EmptyString => Some None
  | String "u" (String ":" s) => Some (Some s)
  | _ => None
  end.

(** An image host that serves one file. *)
Definition http_get (url : string) : main.Fetched :=
  if String.eqb url "https://image.tmdb.org/t/p/w500/alien.jpg"
  then main.Got 200 "JFIF" None
  else main.Got 404 EmptyString None.

End sample.

(** ** The notions the properties are stated with *)

(** [q] occurs in [t] as a literal substring. *)
Definition contains_literal (q t : string) : Prop :=
  exists pre post, t = pre +:+ q +:+ post.

(** An entry of [indices] whose lowercased title is [q]. *)
Definition titled (q : string) (e : option string * nat) : bool :=
  match fst e with
  | Some t => String.eqb (pystr.lower t) q
  | None => false
  end.

(** An entry of [indices] that has a title at all. *)
Definition has_title (e : option string * nat) : bool :=
  match fst e with
  | Some _ => true
  | None => false
  end.

(** [load_model] leaves the globals in this shape when the pickled index
    points into the pickled table. *)
Definition consistent (g : recommender.Globals) : Prop :=
  length (recommender.tfidf_matrix g) = length (recommender.df g) /\
  Forall (fun e => snd e < length (recommender.df g)) (recommender.indices g).



(** An entry of [indices] in whose lowercased title [r] finds a match. *)
Definition matched (r : re.regex) (e : option string * nat) : bool :=
  match fst e with
  | Some t => re.search r (pystr.lower t)
  | None => false
  end.

(** The first element of a list, if any. *)
Definition first {A} (l : list A) : option A :=
  match l with
  | [] => None
  | a :: _ => Some a
  end.

(** The pattern that matches [q] and nothing else. *)
Fixpoint literal (q : string) : re.regex :=
  match q with
  | EmptyString => re.Eps
  | String c q' => re.Cat (re.Chr c) (literal q')
  end.

(** No character of [q] has a meaning of its own in a pattern. *)
Fixpoint plain (q : string) : bool :=
  match q with
  | EmptyString => true
  | String c q' => negb (re.is_special c) && plain q'
  end.

(** A cell that holds a string whose lowercase form contains [q]. *)
Definition cell_contains (q : string) (cell : option string) : bool :=
  match cell with
  | Some t => pystr.str_in q (pystr.lower t)
  | None => false
  end.

(** [a] may come before [b] in a list sorted by [key], highest first. *)
Definition descending {A} (key : A -> Q) (a b : A) : Prop := (key b <= key a)%Q.

(** The UNIQUE constraints of the [users] table. *)
Definition unique_users (db : database.DB) : Prop :=
  List.NoDup (map database.username (database.users db)) /\
  List.NoDup (map database.email (database.users db)).

(** A username or an email of the table. *)
Definition taken (u e : string) (db : database.DB) : Prop :=
  exists row, In row (database.users db) /\
              (database.username row = u \/ database.email row = e).

(** Calls of [_fetch_poster_path], one title after the other. *)
Definition fetch_all (TMDB_API_KEY : string) (tmdb : nat -> string -> recommender.Reply)
    (titles : list string) (p : recommender.Posters) : recommender.Posters :=
  fold_left (fun p title => snd (recommender._fetch_poster_path TMDB_API_KEY tmdb title p))
            titles p.

(** Every title a request was sent for has an entry in the cache. *)
Definition requests_cached (p : recommender.Posters) : Prop :=
  forall title, In title (recommender.sent p) ->
                recommender._poster_cache p !! title <> None.

(** The characters that make [re.compile] fail when a pattern starts
    with them. *)
Definition cannot_start (c : ascii) : bool :=
  re.is_quantifier c || Ascii.eqb c ")".

(** * Properties *)

(** ** Strings *)

Section string_facts.

Import pystr.

Lemma isspace_lower_char c : isspace (lower_char c) = isspace c.
Proof. destruct c as [[] [] [] [] [] [] [] []]; reflexivity. Qed.

Lemma lower_app s1 s2 : lower (s1 +:+ s2) = lower s1 +:+ lower s2.
Proof. induction s1 as [|c s1 IH]; simpl; [reflexivity | now rewrite IH]. Qed.

Lemma lstrip_lower s : lstrip (lower s) = lower (lstrip s).
Proof.
  induction s as [|c s IH]; simpl; [reflexivity|].
  rewrite isspace_lower_char. destruct (isspace c); [exact IH | reflexivity].
Qed.

Lemma rstrip_lower s : rstrip (lower s) = lower (rstrip s).
Proof.
  induction s as [|c s IH]; simpl; [reflexivity|].
  rewrite IH, isspace_lower_char.
  destruct (rstrip s); simpl; [destruct (isspace c)|]; reflexivity.
Qed.

Lemma strip_lower s : strip (lower s) = lower (strip s).
Proof. unfold strip. now rewrite lstrip_lower, rstrip_lower. Qed.

Lemma lstrip_space_app ws s : all_space ws = true -> lstrip (ws +:+ s) = lstrip s.
Proof.
  induction ws as [|c ws IH]; simpl; [reflexivity|].
  intros [Hc Hws]%andb_prop. rewrite Hc. auto.
Qed.

Lemma rstrip_space ws : all_space ws = true -> rstrip ws = EmptyString.
Proof.
  induction ws as [|c ws IH]; simpl; [reflexivity|].
  intros [Hc Hws]%andb_prop. now rewrite IH, Hc.
Qed.

Lemma rstrip_app_space s ws : all_space ws = true -> rstrip (s +:+ ws) = rstrip s.
Proof.
  intros Hws. induction s as [|c s IH]; simpl.
  - now apply rstrip_space.
  - now rewrite IH.
Qed.

Lemma lstrip_space ws : all_space ws = true -> lstrip ws = EmptyString.
Proof.
  induction ws as [|c ws IH]; simpl; [reflexivity|].
  intros [Hc Hws]%andb_prop. rewrite Hc. auto.
Qed.

Lemma lstrip_length s : String.length (lstrip s) <= String.length s.
Proof.
  induction s as [|c s IH]; simpl; [lia|].
  destruct (isspace c); simpl; lia.
Qed.

Lemma rstrip_length s : String.length (rstrip s) <= String.length s.
Proof.
  induction s as [|c s IH]; simpl; [lia|].
  destruct (rstrip s); [destruct (isspace c)|]; simpl in *; lia.
Qed.

(** A string that [strip] leaves alone does not start with a blank. *)
Lemma strip_fixed_lstrip s : strip s = s -> lstrip s = s.
Proof.
  unfold strip. destruct s as [|c s]; simpl; [reflexivity|].
  destruct (isspace c); [|reflexivity].
  intros H. pose proof (rstrip_length (lstrip s)) as H1.
  pose proof (lstrip_length s) as H2.
  rewrite H in H1. simpl in H1. lia.
Qed.

Lemma lstrip_fixed_app s u : lstrip s = s -> s <> EmptyString -> lstrip (s +:+ u) = s +:+ u.
Proof.
  destruct s as [|c s]; simpl; [congruence|].
  destruct (isspace c); [|reflexivity].
  intros H _. pose proof (lstrip_length s) as H1.
  rewrite H in H1. simpl in H1. lia.
Qed.

Lemma strip_surrounded ws1 t ws2 :
  all_space ws1 = true -> all_space ws2 = true -> strip t = t ->
  strip (ws1 +:+ t +:+ ws2) = t.
Proof.
  intros H1 H2 Ht. pose proof (strip_fixed_lstrip t Ht) as Hl.
  unfold strip in *. rewrite lstrip_space_app by assumption.
  destruct t as [|c t].
  - simpl. now rewrite lstrip_space.
  - rewrite lstrip_fixed_app by (assumption || discriminate).
    rewrite rstrip_app_space by assumption. now rewrite Hl in Ht.
Qed.

(** Surrounding blanks and the casing of the query do not matter. *)
Lemma normalise_query ws1 q ws2 t :
  all_space ws1 = true -> all_space ws2 = true ->
  lower q = lower t -> strip t = t ->
  strip (lower (ws1 +:+ q +:+ ws2)) = lower t.
Proof.
  intros H1 H2 Hq Ht.
  rewrite !lower_app, Hq, <- !lower_app, strip_lower. f_equal.
  now apply strip_surrounded.
Qed.

Lemma normalise_blank q : all_space q = true -> strip (lower q) = EmptyString.
Proof.
  intros H. rewrite strip_lower. unfold strip.
  now rewrite lstrip_space.
Qed.

End string_facts.

(** ** Title resolution *)

Section resolution.

Import recommender.

Lemma select_map {A} (f : A -> bool) (l : list A) :
  py.select l (map f l) = List.filter f l.
Proof.
  induction l as [|a l IH]; simpl; [reflexivity|].
  rewrite IH. reflexivity.
Qed.

Lemma first_filter {A} (f : A -> bool) (l : list A) :
  first (List.filter f l) = find f l.
Proof.
  induction l as [|a l IH]; simpl; [reflexivity|].
  destruct (f a); [reflexivity | exact IH].
Qed.

Lemma eq_mask_labels (ix : list (option string * nat)) q :
  py.eq_mask (py.str_lower (map fst ix)) q = map (titled q) ix.
Proof.
  unfold py.eq_mask, py.str_lower, titled. rewrite !map_map.
  apply map_ext. intros [[t|] i]; reflexivity.
Qed.

Lemma contains_labels pat r (ix : list (option string * nat)) :
  re.compile pat = re.POk r ->
  py.str_contains pat (py.str_lower (map fst ix)) = Returns (map (matched r) ix).
Proof.
  intros H. unfold py.str_contains, py.str_lower, matched. rewrite H, !map_map.
  f_equal. apply map_ext. intros [[t|] i]; reflexivity.
Qed.

(** The exact lookup wins whenever it finds a row. *)
Lemma resolve_title_exact g title e :
  find (titled (pystr.strip (pystr.lower title))) (indices g) = Some e ->
  resolve_title g title = Returns (Some (snd e)).
Proof.
  intros H. unfold resolve_title.
  rewrite eq_mask_labels, select_map.
  rewrite <- first_filter in H.
  destruct (List.filter _ (indices g)) as [|m ms]; simpl in *; congruence.
Qed.

(** Otherwise the normalised query is compiled and searched for. *)
Lemma resolve_title_fallback g title :
  find (titled (pystr.strip (pystr.lower title))) (indices g) = None ->
  resolve_title g title =
    match re.compile (pystr.strip (pystr.lower title)) with
    | re.POk r => Returns (option_map snd (find (matched r) (indices g)))
    | re.PError => Raises re_error
    | re.PUnsupported => Unmodelled
    end.
Proof.
  intros H. unfold resolve_title.
  rewrite eq_mask_labels, select_map.
  rewrite <- first_filter in H.
  destruct (List.filter _ (indices g)) as [|m ms]; simpl in H; [clear H | discriminate].
  destruct (re.compile _) as [r| |] eqn:Hc.
  - rewrite (contains_labels _ r) by assumption. simpl.
    rewrite select_map, <- first_filter.
    destruct (List.filter _ (indices g)); reflexivity.
  - unfold py.str_contains. rewrite Hc. reflexivity.
  - unfold py.str_contains. rewrite Hc. reflexivity.
Qed.

Lemma resolve_title_never_http g title s :
  resolve_title g title <> Raises (HTTPException s).
Proof.
  destruct (find (titled (pystr.strip (pystr.lower title))) (indices g)) as [e|] eqn:H.
  - rewrite (resolve_title_exact _ _ e) by assumption. discriminate.
  - rewrite resolve_title_fallback by assumption.
    destruct (re.compile _); discriminate.
Qed.

End resolution.

(** C5 (as amended): a catalogue title that neither starts nor ends with
    white space is found by the exact lookup whatever the casing of the
    query and whatever blanks surround it; the row returned is the first
    entry, in catalogue order, whose lowercased title is the same. *)
Theorem C5_exact_title_resolves (g : recommender.Globals) (t : string) (i : nat)
    (ws1 q ws2 : string) :
  In (Some t, i) (recommender.indices g) ->
  pystr.strip t = t ->
  pystr.all_space ws1 = true -> pystr.all_space ws2 = true ->
  pystr.lower q = pystr.lower t ->
  exists e,
    find (titled (pystr.lower t)) (recommender.indices g) = Some e /\
    recommender.resolve_title g (ws1 +:+ q +:+ ws2) = Returns (Some (snd e)).
Proof.
  intros Hin Ht H1 H2 Hq.
  destruct (find (titled (pystr.lower t)) (recommender.indices g)) as [e|] eqn:Hf.
  - exists e. split; [reflexivity|].
    apply resolve_title_exact. now rewrite (normalise_query ws1 q ws2 t).
  - exfalso. apply (find_none _ _ Hf) in Hin.
    unfold titled in Hin; simpl in Hin. now rewrite String.eqb_refl in Hin.
Qed.

Lemma C5_exact_title_resolves_witness :
  exists e,
    find (titled (pystr.lower "Aliens")) (recommender.indices sample.g) = Some e /\
    recommender.resolve_title sample.g ("  " +:+ "ALIENS" +:+ " ") = Returns (Some (snd e)).
Proof.
  apply (C5_exact_title_resolves sample.g "Aliens" 1 "  " "ALIENS" " ");
    [simpl; tauto | reflexivity | reflexivity | reflexivity | reflexivity].
Defined.

(** C5 as stated fails for a title that ends in a blank: the query is
    stripped, the catalogue title is not, so the exact lookup misses and
    the fallback takes the first title containing the stripped query. *)
Lemma C5_counterexample :
  In (Some "Avatar ", 1) (recommender.indices sample.g_blank) /\
  find (titled (pystr.lower "Avatar ")) (recommender.indices sample.g_blank)
    = Some (Some "Avatar ", 1) /\
  recommender.resolve_title sample.g_blank "Avatar " = Returns (Some 0).
Proof. split; [simpl; tauto | split; reflexivity]. Qed.

(** ** Sorting and slicing *)

Section sorting.

Context {A : Type} (key : A -> Q) (ahead : A -> A -> bool).

Hypothesis ahead_true : forall y x, ahead y x = true -> descending key y x.
Hypothesis ahead_false : forall y x, ahead y x = false -> descending key x y.

Lemma insert_perm x l : Permutation (x :: l) (py.insert ahead x l).
Proof.
  induction l as [|y l IH]; simpl; [reflexivity|].
  destruct (ahead y x); [|reflexivity].
  rewrite perm_swap. now apply perm_skip.
Qed.

Lemma insert_sorted x l :
  StronglySorted (descending key) l -> StronglySorted (descending key) (py.insert ahead x l).
Proof.
  induction l as [|y l IH]; simpl; intros Hs.
  - repeat constructor.
  - inversion Hs as [|? ? Hl Hy]; subst.
    destruct (ahead y x) eqn:Hyx.
    + constructor; [auto|].
      apply (Permutation_Forall (insert_perm x l)).
      constructor; [now apply ahead_true | assumption].
    + constructor; [assumption|].
      apply ahead_false in Hyx. constructor; [assumption|].
      eapply List.Forall_impl; [|exact Hy].
      intros z Hz. unfold descending in *. eapply Qle_trans; eassumption.
Qed.

Lemma sort_with_perm l : Permutation l (py.sort_with ahead l).
Proof.
  induction l as [|x l IH]; simpl; [reflexivity|].
  rewrite <- insert_perm. now apply perm_skip.
Qed.

Lemma sort_with_sorted l : StronglySorted (descending key) (py.sort_with ahead l).
Proof.
  induction l as [|x l IH]; simpl; [constructor | now apply insert_sorted].
Qed.

End sorting.

Lemma sorted_desc_perm {A} (key : A -> Q) l : Permutation l (py.sorted_desc key l).
Proof. apply sort_with_perm. Qed.

Lemma sorted_desc_sorted {A} (key : A -> Q) l :
  StronglySorted (fun a b => (key b <= key a)%Q) (py.sorted_desc key l).
Proof.
  apply sort_with_sorted; intros y x H.
  - apply negb_true_iff in H. apply Qlt_le_weak, Qnot_le_lt.
    intros Hle. apply Qle_bool_iff in Hle. congruence.
  - apply negb_false_iff in H. now apply Qle_bool_iff.
Qed.

(** The descending sort is stable: the elements of any one key come out
    in the order they went in. *)
Lemma insert_desc_same_key {A} (key : A -> Q) (p : Q) x l :
  List.filter (fun a => Qeq_bool (key a) p)
              (py.insert (fun y x => negb (Qle_bool (key y) (key x))) x l)
  = List.filter (fun a => Qeq_bool (key a) p) (x :: l).
Proof.
  induction l as [|y l IH]; [reflexivity|].
  cbn [py.insert]. destruct (negb (Qle_bool (key y) (key x))) eqn:Hyx; [|reflexivity].
  cbn [List.filter] in *. rewrite IH.
  destruct (Qeq_bool (key x) p) eqn:Hx, (Qeq_bool (key y) p) eqn:Hy; try reflexivity.
  exfalso. apply negb_true_iff in Hyx.
  apply Qeq_bool_iff in Hx. apply Qeq_bool_iff in Hy.
  assert (Hle : Qle_bool (key y) (key x) = true).
  { apply Qle_bool_iff. rewrite Hx, Hy. apply Qle_refl. }
  congruence.
Qed.

Lemma sorted_desc_stable {A} (key : A -> Q) (p : Q) l :
  List.filter (fun a => Qeq_bool (key a) p) (py.sorted_desc key l)
  = List.filter (fun a => Qeq_bool (key a) p) l.
Proof.
  induction l as [|x l IH]; [reflexivity|].
  change (py.sorted_desc key (x :: l))
    with (py.insert (fun y x0 => negb (Qle_bool (key y) (key x0))) x (py.sorted_desc key l)).
  rewrite insert_desc_same_key. cbn [List.filter]. now rewrite IH.
Qed.

Section slicing.

Context {A : Type}.
Implicit Types l : list A.

(** With bounds that are not negative a slice is a [firstn] of a
    [skipn]. *)
Lemma slice_nonneg l (a b : nat) :
  py.slice l (Z.of_nat a) (Z.of_nat b) = firstn (b - a) (skipn a l).
Proof.
  unfold py.slice, py.bound.
  destruct (Z.ltb_spec (Z.of_nat a) 0) as [?|_]; [lia|].
  destruct (Z.ltb_spec (Z.of_nat b) 0) as [?|_]; [lia|].
  destruct (Nat.le_gt_cases (length l) a) as [Ha|Ha].
  - rewrite !(skipn_all2 l) by lia. now rewrite !firstn_nil.
  - replace (Z.to_nat (Z.min (Z.of_nat a) (Z.of_nat (length l)))) with a by lia.
    destruct (Nat.le_gt_cases b (length l)) as [Hb|Hb].
    + f_equal. lia.
    + rewrite !firstn_all2; [reflexivity | | ]; rewrite length_skipn; lia.
Qed.

Lemma slice_length_le l (a b : nat) : length (py.slice l (Z.of_nat a) (Z.of_nat b)) <= b - a.
Proof. rewrite slice_nonneg. apply firstn_le_length. Qed.

Lemma In_firstn n l x : In x (firstn n l) -> In x l.
Proof. intros H. rewrite <- (firstn_skipn n l). apply in_or_app. now left. Qed.

Lemma In_skipn n l x : In x (skipn n l) -> In x l.
Proof. intros H. rewrite <- (firstn_skipn n l). apply in_or_app. now right. Qed.

Lemma slice_incl l (a b : Z) x : In x (py.slice l a b) -> In x l.
Proof. unfold py.slice. intros H. eapply In_skipn, In_firstn, H. Qed.

Lemma slice_one l (i : nat) x :
  nth_error l i = Some x -> py.slice l (Z.of_nat i) (Z.of_nat i + 1) = [x].
Proof.
  intros H. replace (Z.of_nat i + 1)%Z with (Z.of_nat (S i)) by lia.
  rewrite slice_nonneg. replace (S i - i) with 1 by lia.
  rewrite <- (firstn_skipn_middle i l H) at 1.
  assert (Hlen : length (firstn i l) = i).
  { apply firstn_length_le. apply Nat.lt_le_incl, nth_error_Some. congruence. }
  rewrite skipn_app, Hlen, Nat.sub_diag, skipn_all2 by lia. reflexivity.
Qed.

Lemma slice_beyond l (a b : nat) : length l <= a -> py.slice l (Z.of_nat a) (Z.of_nat b) = [].
Proof. intros H. rewrite slice_nonneg, skipn_all2 by assumption. apply firstn_nil. Qed.

End slicing.

Section sorted_parts.

Context {A : Type} (R : A -> A -> Prop).

Lemma StronglySorted_skipn n l : StronglySorted R l -> StronglySorted R (skipn n l).
Proof.
  revert l. induction n as [|n IH]; intros l Hs; [exact Hs|].
  destruct l as [|a l]; [exact Hs|]. simpl.
  apply IH. now inversion Hs.
Qed.

Lemma StronglySorted_firstn n l : StronglySorted R l -> StronglySorted R (firstn n l).
Proof.
  revert n. induction l as [|a l IH]; intros n Hs.
  - rewrite firstn_nil. constructor.
  - destruct n as [|n]; simpl; [constructor|].
    inversion Hs as [|? ? Hl Ha]; subst. constructor; [auto|].
    apply List.Forall_forall. intros x Hx.
    rewrite List.Forall_forall in Ha. eapply Ha, In_firstn, Hx.
Qed.


End sorted_parts.

(** ** Trending *)

Section trending.

Import recommender.

Variable g : Globals.

Lemma get_trending_nat (p pp : nat) :
  1 <= p ->
  get_trending g (Z.of_nat p) (Z.of_nat pp)
  = map _build_movie (firstn pp (skipn ((p - 1) * pp) (sort_values popularity false (df g)))).
Proof.
  intros Hp. unfold get_trending.
  replace ((Z.of_nat p - 1) * Z.of_nat pp)%Z with (Z.of_nat ((p - 1) * pp)) by nia.
  replace (Z.of_nat ((p - 1) * pp) + Z.of_nat pp)%Z
    with (Z.of_nat ((p - 1) * pp + pp)) by lia.
  rewrite slice_nonneg. do 2 f_equal. lia.
Qed.



Lemma sort_values_popularity_perm :
  Permutation (df g) (sort_values popularity false (df g)).
Proof. apply sorted_desc_perm. Qed.

End trending.




(** ** Recommendations *)

Section recommendations.

Import recommender.

Lemma iloc_in_range rows positions :
  Forall (fun i => i < length rows) positions ->
  exists rs, iloc rows positions = Returns rs /\ length rs = length positions.
Proof.
  unfold iloc. induction 1 as [|i positions Hi _ [rs [IH Hlen]]]; simpl.
  - now exists [].
  - apply nth_error_Some in Hi.
    destruct (nth_error rows i) as [r|]; [|congruence].
    simpl. rewrite IH. simpl. exists (r :: rs). simpl. auto.
Qed.

(** [linear_kernel] accepts the slice of a row that exists. *)
Lemma check_pairwise_arrays_row (m : list (list Q)) (idx : nat) :
  idx < length m ->
  recommender.check_pairwise_arrays (py.slice m (Z.of_nat idx) (Z.of_nat idx + 1)) m
  = Returns tt.
Proof.
  intros H. destruct (nth_error m idx) as [row|] eqn:E.
  - rewrite (slice_one _ _ _ E). destruct m; [destruct idx; discriminate | reflexivity].
  - apply nth_error_None in E. lia.
Qed.

Lemma check_pairwise_arrays_never_http X Y s :
  recommender.check_pairwise_arrays X Y <> Raises (HTTPException s).
Proof. destruct X, Y; discriminate. Qed.

Lemma iloc_never_http rows positions s :
  iloc rows positions <> Raises (HTTPException s).
Proof.
  unfold iloc. induction positions as [|i positions IH]; simpl; [discriminate|].
  destruct (nth_error rows i); simpl; [|discriminate].
  destruct (omapM _ positions) eqn:E; simpl; congruence.
Qed.

Lemma get_recommendations_never_http g title n s :
  get_recommendations g title n <> Raises (HTTPException s).
Proof.
  unfold get_recommendations.
  pose proof (resolve_title_never_http g title s) as Hr.
  destruct (resolve_title g title) as [[idx|]| |]; simpl; try congruence.
  pose proof (check_pairwise_arrays_never_http
                (py.slice (tfidf_matrix g) (Z.of_nat idx) (Z.of_nat idx + 1))
                (tfidf_matrix g) s) as Hc.
  destruct (check_pairwise_arrays _ _); simpl; try congruence.
  pose proof (iloc_never_http (df g) (movie_indices g idx n) s) as Hi.
  destruct (iloc _ _); simpl; congruence.
Qed.

Lemma enumerate_length {A} (l : list A) : length (py.enumerate l) = length l.
Proof.
  unfold py.enumerate. rewrite length_combine, length_seq. apply Nat.min_id.
Qed.

Lemma enumerate_fst_lt {A} (l : list A) e : In e (py.enumerate l) -> fst e < length l.
Proof.
  destruct e as [i x]. unfold py.enumerate. intros H%in_combine_l.
  apply in_seq in H. simpl. lia.
Qed.

(** The scores computed for a row: one per row of the matrix, or none
    when the position is past the end. *)
Lemma cosine_sim_length g idx :
  length (concat (linear_kernel
                    (py.slice (tfidf_matrix g) (Z.of_nat idx) (Z.of_nat idx + 1))
                    (tfidf_matrix g)))
  = if idx <? length (tfidf_matrix g) then length (tfidf_matrix g) else 0.
Proof.
  destruct (Nat.ltb_spec idx (length (tfidf_matrix g))) as [H|H].
  - destruct (nth_error (tfidf_matrix g) idx) as [row|] eqn:E.
    + rewrite (slice_one _ _ row E). simpl. now rewrite app_nil_r, length_map.
    + apply nth_error_None in E. lia.
  - replace (Z.of_nat idx + 1)%Z with (Z.of_nat (S idx)) by lia.
    now rewrite slice_beyond.
Qed.

Lemma sim_scores_length g idx :
  length (sim_scores g idx)
  = if idx <? length (tfidf_matrix g) then length (tfidf_matrix g) else 0.
Proof.
  unfold sim_scores, ranked.
  rewrite <- (Permutation_length (sorted_desc_perm snd _)), enumerate_length.
  apply cosine_sim_length.
Qed.

Lemma sim_scores_fst_lt g idx e :
  In e (sim_scores g idx) -> fst e < length (tfidf_matrix g).
Proof.
  unfold sim_scores, ranked. intros H.
  apply (Permutation_in _ (Permutation_sym (sorted_desc_perm snd _))) in H.
  apply enumerate_fst_lt in H. rewrite cosine_sim_length in H.
  destruct (idx <? length (tfidf_matrix g)); lia.
Qed.

(** The ranking is by score, highest first. *)
Lemma sim_scores_sorted g idx :
  StronglySorted (fun a b => (snd b <= snd a)%Q) (sim_scores g idx).
Proof. apply sorted_desc_sorted. Qed.

Lemma movie_indices_nat g idx (n : nat) :
  movie_indices g idx (Z.of_nat n) = map fst (firstn n (skipn 1 (sim_scores g idx))).
Proof.
  unfold movie_indices.
  replace (Z.of_nat n + 1)%Z with (Z.of_nat (S n)) by lia.
  rewrite (slice_nonneg _ 1 (S n)). do 2 f_equal. lia.
Qed.

(** At most [n] rows come back when [n] is not negative. *)
Lemma movie_indices_length_le g idx (n : Z) :
  (0 <= n)%Z -> (Z.of_nat (length (movie_indices g idx n)) <= n)%Z.
Proof.
  intros Hn. rewrite <- (Z2Nat.id n) at 1 by assumption.
  rewrite movie_indices_nat, length_map.
  pose proof (firstn_le_length (Z.to_nat n) (skipn 1 (sim_scores g idx))). lia.
Qed.

Lemma movie_indices_in_range g idx n :
  Forall (fun i => i < length (tfidf_matrix g)) (movie_indices g idx n).
Proof.
  apply List.Forall_forall. intros i [e [<- He]]%in_map_iff.
  eapply sim_scores_fst_lt, slice_incl, He.
Qed.

(** In a ranking every pair kept by a cut scores at least as high as
    every pair after the cut. *)
Lemma ranked_cut (cosine_sim : list Q) (n : nat) e e' :
  In e (firstn n (skipn 1 (ranked cosine_sim))) ->
  In e' (skipn n (skipn 1 (ranked cosine_sim))) ->
  (snd e' <= snd e)%Q.
Proof.
  intros He He'.
  assert (Hs : StronglySorted (fun a b => (snd b <= snd a)%Q) (skipn 1 (ranked cosine_sim)))
    by apply StronglySorted_skipn, sorted_desc_sorted.
  rewrite <- (firstn_skipn n (skipn 1 (ranked cosine_sim))) in Hs.
  revert He He' Hs.
  generalize (firstn n (skipn 1 (ranked cosine_sim))) as front.
  generalize (skipn n (skipn 1 (ranked cosine_sim))) as back.
  intros back front. induction front as [|a front IH]; simpl; [tauto|].
  intros [->|He] He' Hs; inversion Hs as [|? ? Hs' Ha]; subst.
  - rewrite List.Forall_forall in Ha. apply Ha, in_or_app. now right.
  - now apply IH.
Qed.

Lemma positions_after_first_nat (cosine_sim : list Q) (n : nat) :
  positions_after_first cosine_sim (Z.of_nat n)
  = map fst (firstn n (skipn 1 (ranked cosine_sim))).
Proof.
  unfold positions_after_first.
  replace (Z.of_nat n + 1)%Z with (Z.of_nat (S n)) by lia.
  rewrite (slice_nonneg _ 1 (S n)). do 2 f_equal. lia.
Qed.

(** The positions [get_recommendations] reads from [df] are those ranked
    after the first for the scores of the resolved row. *)
Lemma movie_indices_positions g idx n :
  movie_indices g idx n
  = positions_after_first
      (concat (linear_kernel
                 (py.slice (tfidf_matrix g) (Z.of_nat idx) (Z.of_nat idx + 1))
                 (tfidf_matrix g))) n.
Proof. reflexivity. Qed.

End recommendations.

(** A title for which both lookups return nothing makes
    [get_recommendations] return the empty list; it never raises an HTTP
    error itself. The route is where the empty list becomes a 404. *)
Lemma not_found_is_empty_then_404 (g : recommender.Globals) (title : string) (n : Z) :
  (forall s, recommender.get_recommendations g title n <> Raises (HTTPException s)) /\
  ((1 <= n <= 30)%Z ->
   (main.recommend_movies g title n = Raises (HTTPException 404) <->
    recommender.get_recommendations g title n = Returns [])) /\
  (recommender.resolve_title g title = Returns None ->
   recommender.get_recommendations g title n = Returns [] /\
   ((1 <= n <= 30)%Z -> main.recommend_movies g title n = Raises (HTTPException 404))).
Proof.
  split; [intros s; apply get_recommendations_never_http|].
  split.
  { intros [Hlo Hhi]. unfold main.recommend_movies.
    destruct (Z.ltb_spec n 1); [lia|]. destruct (Z.ltb_spec 30 n); [lia|]. simpl.
    pose proof (get_recommendations_never_http g title n 404) as Hnever.
    destruct (recommender.get_recommendations g title n) as [[|m ms]|e|]; simpl;
      split; intros Heq; congruence. }
  intros Hr.
  assert (Hg : recommender.get_recommendations g title n = Returns []).
  { unfold recommender.get_recommendations. now rewrite Hr. }
  split; [exact Hg|].
  intros [Hlo Hhi]. unfold main.recommend_movies.
  destruct (Z.ltb_spec n 1); [lia|]. destruct (Z.ltb_spec 30 n); [lia|].
  simpl. now rewrite Hg.
Qed.

(** C8: an unknown title can make [get_recommendations] raise instead of
    returning the empty list. No title of the sample catalogue equals or
    contains "zzz(" and none equals or contains "zzz-nonexistent-zzz".
    The second gets the empty list and the route's 404; the first is
    compiled as a pattern by the fallback, the [re.error] leaves
    [get_recommendations] unhandled, and the route answers with neither
    recommendations nor 404. *)
Theorem C8_unknown_title_raises :
  (forallb (fun e => negb (pystr.str_in "zzz-nonexistent-zzz"
                             (pystr.lower (recommender.fillna EmptyString (fst e)))))
           (recommender.indices sample.g) = true /\
   recommender.get_recommendations sample.g "zzz-nonexistent-zzz" 12 = Returns [] /\
   main.recommend_movies sample.g "zzz-nonexistent-zzz" 12 = Raises (HTTPException 404)) /\
  (forallb (fun e => negb (pystr.str_in "zzz("
                             (pystr.lower (recommender.fillna EmptyString (fst e)))))
           (recommender.indices sample.g) = true /\
   recommender.get_recommendations sample.g "zzz(" 12 = Raises re_error /\
   main.recommend_movies sample.g "zzz(" 12 = Raises re_error).
Proof. repeat split; reflexivity. Qed.

(** ** Blank queries *)

Section blank_queries.

Import recommender.

Lemma search_eps s : re.search re.Eps s = true.
Proof. destruct s; reflexivity. Qed.

Lemma matched_eps e : matched re.Eps e = has_title e.
Proof.
  unfold matched, has_title. destruct (fst e); [apply search_eps | reflexivity].
Qed.

Lemma find_ext {A} (f f' : A -> bool) l :
  (forall a, f a = f' a) -> find f l = find f' l.
Proof.
  intros H. induction l as [|a l IH]; simpl; [reflexivity|].
  now rewrite H, IH.
Qed.

Lemma existsb_find {A} (f : A -> bool) l :
  existsb f l = true -> exists a, find f l = Some a.
Proof.
  induction l as [|a l IH]; simpl; [discriminate|].
  destruct (f a); [eauto | exact IH].
Qed.

(** A blank query resolves to the first row with an empty title or,
    failing that, to the first row with a title. *)
Lemma resolve_blank g query :
  pystr.all_space query = true ->
  existsb has_title (indices g) = true ->
  exists e,
    (find (titled EmptyString) (indices g) = Some e \/
     (find (titled EmptyString) (indices g) = None /\
      find has_title (indices g) = Some e)) /\
    resolve_title g query = Returns (Some (snd e)).
Proof.
  intros Hq Hex. pose proof (normalise_blank query Hq) as Hn.
  destruct (find (titled EmptyString) (indices g)) as [e|] eqn:Hf.
  - exists e. split; [now left|].
    apply resolve_title_exact. now rewrite Hn.
  - destruct (existsb_find _ _ Hex) as [e He].
    exists e. split; [now right|].
    rewrite resolve_title_fallback by now rewrite Hn.
    rewrite Hn. change (re.compile EmptyString) with (re.POk re.Eps). cbv beta iota.
    rewrite (find_ext _ _ _ matched_eps), He. reflexivity.
Qed.

End blank_queries.

(** C10 (as amended): in a catalogue of at least two rows, with some
    titled entry in the index, a query that is empty or all white space
    never resolves to NOT_FOUND: it resolves to the first row with an
    empty title, else to the first titled row, and with [n >= 1]
    [get_recommendations] returns between one and [n] rows. *)
Theorem C10_blank_query_recommends (g : recommender.Globals) (query : string) (n : Z) :
  consistent g ->
  2 <= length (recommender.df g) ->
  existsb has_title (recommender.indices g) = true ->
  pystr.all_space query = true ->
  (1 <= n)%Z ->
  exists e movies,
    (find (titled EmptyString) (recommender.indices g) = Some e \/
     (find (titled EmptyString) (recommender.indices g) = None /\
      find has_title (recommender.indices g) = Some e)) /\
    recommender.resolve_title g query = Returns (Some (snd e)) /\
    recommender.get_recommendations g query n = Returns movies /\
    movies <> [] /\
    (Z.of_nat (length movies) <= n)%Z.
Proof.
  intros [Hlen Hix] Hrows Hex Hq Hn.
  destruct (resolve_blank g query Hq Hex) as [e [Hfirst Hres]].
  assert (Hin : In e (recommender.indices g)).
  { destruct Hfirst as [H|[_ H]]; apply find_some in H; tauto. }
  assert (Hidx : snd e < length (recommender.tfidf_matrix g)).
  { rewrite Hlen. rewrite List.Forall_forall in Hix. now apply Hix. }
  pose proof (movie_indices_in_range g (snd e) n) as Hrange.
  rewrite Hlen in Hrange.
  destruct (iloc_in_range _ _ Hrange) as [rs [Hrs Hrslen]].
  exists e, (map recommender._build_movie rs).
  split; [exact Hfirst|]. split; [exact Hres|].
  split; [unfold recommender.get_recommendations; rewrite Hres; simpl;
          now rewrite (check_pairwise_arrays_row _ _ Hidx); simpl; rewrite Hrs|].
  assert (Hcount : length rs = Nat.min (Z.to_nat n) (length (recommender.df g) - 1)).
  { rewrite Hrslen, <- (Z2Nat.id n) by lia.
    rewrite movie_indices_nat, length_map, length_firstn, length_skipn, sim_scores_length.
    apply Nat.ltb_lt in Hidx. rewrite Hidx, Hlen, Z2Nat.id by lia. reflexivity. }
  split.
  - intros Hnil. apply (f_equal (@length _)) in Hnil.
    rewrite length_map, Hcount in Hnil. simpl in Hnil. lia.
  - rewrite length_map, Hcount. lia.
Qed.

Lemma C10_blank_query_recommends_witness :
  exists e movies,
    (find (titled EmptyString) (recommender.indices sample.g) = Some e \/
     (find (titled EmptyString) (recommender.indices sample.g) = None /\
      find has_title (recommender.indices sample.g) = Some e)) /\
    recommender.resolve_title sample.g "  " = Returns (Some (snd e)) /\
    recommender.get_recommendations sample.g "  " 12 = Returns movies /\
    movies <> [] /\
    (Z.of_nat (length movies) <= 12)%Z.
Proof.
  apply (C10_blank_query_recommends sample.g "  " 12);
    [ split; [reflexivity | repeat constructor]
    | simpl; lia | reflexivity | reflexivity | lia ].
Defined.

(** C10 as stated fails for a catalogue of one film (the only row is the
    one skipped), for [n = 0], and for a catalogue whose index holds no
    title at all. *)
Lemma C10_counterexample :
  (recommender.resolve_title sample.g_single "  " = Returns (Some 0) /\
   recommender.get_recommendations sample.g_single "  " 12 = Returns []) /\
  recommender.get_recommendations sample.g "  " 0 = Returns [] /\
  (recommender.indices sample.g_nameless <> [] /\
   recommender.resolve_title sample.g_nameless "  " = Returns None).
Proof. repeat split; (reflexivity || discriminate). Qed.

(** ** Registration *)

Section registration.

Import database.

Variable hash_password : string -> string.
Variable utcnow : string.

Lemma find_present {A} (f : A -> bool) l a :
  In a l -> f a = true -> exists b, find f l = Some b.
Proof.
  intros Hin Hf. destruct (find f l) as [b|] eqn:E; [eauto|].
  apply (find_none _ _ E) in Hin. congruence.
Qed.

(** A request that fails a length check touches nothing. *)
Lemma register_invalid user db :
  String.length (models.username user) < 3 \/ String.length (models.password user) < 6 ->
  main.register hash_password utcnow user db = (Raises (HTTPException 400), db).
Proof.
  intros H. unfold main.register.
  destruct (Nat.ltb_spec (String.length (models.username user)) 3); [reflexivity|].
  destruct (Nat.ltb_spec (String.length (models.password user)) 6); [reflexivity|].
  lia.
Qed.

(** The table only changes when the account is created. *)
Lemma register_users user db :
  users (snd (main.register hash_password utcnow user db)) = users db \/
  exists msg, fst (main.register hash_password utcnow user db) = Returns msg.
Proof.
  unfold main.register.
  destruct (_ <? 3); [now left|]. destruct (_ <? 6); [now left|].
  unfold get_user_by_username, get_user_by_email, create_user. simpl.
  destruct (find _ (users db)); [now left|].
  destruct (find _ (users db)); [now left|].
  destruct (existsb _ (users db)); [now left | right; eauto].
Qed.

Lemma register_conflict user db row :
  3 <= String.length (models.username user) ->
  6 <= String.length (models.password user) ->
  In row (users db) ->
  username row = models.username user \/ email row = models.email user ->
  fst (main.register hash_password utcnow user db) = Raises (HTTPException 409).
Proof.
  intros Hu Hp Hin Hdup. unfold main.register.
  destruct (Nat.ltb_spec (String.length (models.username user)) 3); [lia|].
  destruct (Nat.ltb_spec (String.length (models.password user)) 6); [lia|].
  unfold get_user_by_username, get_user_by_email. simpl.
  destruct (find (fun r => String.eqb (username r) _) (users db)) eqn:Eu; [reflexivity|].
  destruct (find (fun r => String.eqb (email r) _) (users db)) eqn:Ee; [reflexivity|].
  exfalso. destruct Hdup as [Hd|Hd].
  - apply (find_none _ _ Eu) in Hin. rewrite Hd, String.eqb_refl in Hin. discriminate.
  - apply (find_none _ _ Ee) in Hin. rewrite Hd, String.eqb_refl in Hin. discriminate.
Qed.

End registration.

(** C9 (as amended): a username shorter than 3 characters, and likewise a
    password shorter than 6, is rejected with 400 before the user table
    is read or written; a request that passes both checks and repeats a
    stored username or email is rejected with 409, which is neither 400
    nor 500; the user table is the same after every rejected request. *)
Theorem C9_register_rejections (hash_password : string -> string) (utcnow : string)
    (user : models.UserRegister) (db : database.DB) :
  let out := fst (main.register hash_password utcnow user db) in
  let db' := snd (main.register hash_password utcnow user db) in
  (String.length (models.username user) < 3 \/ String.length (models.password user) < 6 ->
   out = Raises (HTTPException 400) /\ db' = db) /\
  (3 <= String.length (models.username user) ->
   6 <= String.length (models.password user) ->
   (exists row, In row (database.users db) /\
                (database.username row = models.username user \/
                 database.email row = models.email user)) ->
   out = Raises (HTTPException 409)) /\
  (HTTPException 409 <> HTTPException 400 /\ HTTPException 409 <> HTTPException 500) /\
  (forall e, out = Raises e -> database.users db' = database.users db).
Proof.
  intros out db'. subst out db'.
  split; [|split; [|split]].
  - intros H. now rewrite register_invalid.
  - intros Hu Hp [row [Hin Hdup]]. now apply (register_conflict _ _ _ _ row).
  - split; discriminate.
  - intros e He.
    destruct (register_users hash_password utcnow user db) as [H|[msg H]]; [exact H|].
    congruence.
Qed.

Lemma C9_register_rejections_witness :
  let short := {| models.username := "al"; models.email := "al@example.org";
                  models.password := "secret1" |} in
  let again := {| models.username := "alice"; models.email := "new@example.org";
                  models.password := "secret1" |} in
  main.register sample.hash_password "2024-01-02T00:00:00" short sample.db
    = (Raises (HTTPException 400), sample.db) /\
  fst (main.register sample.hash_password "2024-01-02T00:00:00" again sample.db)
    = Raises (HTTPException 409) /\
  database.users (snd (main.register sample.hash_password "2024-01-02T00:00:00" again sample.db))
    = database.users sample.db.
Proof.
  intros short again.
  destruct (C9_register_rejections sample.hash_password "2024-01-02T00:00:00" short sample.db)
    as [Hshort _].
  destruct (C9_register_rejections sample.hash_password "2024-01-02T00:00:00" again sample.db)
    as [_ [Hdup [_ Hsame]]].
  split; [|split].
  - destruct Hshort as [H1 H2]; [left; simpl; lia|].
    rewrite (surjective_pairing (main.register _ _ short sample.db)).
    now rewrite H1, H2.
  - apply Hdup; [simpl; lia | simpl; lia |].
    exists sample.alice. split; [simpl; tauto | left; reflexivity].
  - apply (Hsame (HTTPException 409)).
    apply Hdup; [simpl; lia | simpl; lia |].
    exists sample.alice. split; [simpl; tauto | left; reflexivity].
Defined.

(** C9 as stated fails when the duplicate comes with a password that is
    too short: the stored username is repeated, yet the answer is the
    validation failure 400, given before the table is consulted. *)
Lemma C9_counterexample :
  let user := {| models.username := "alice"; models.email := "new@example.org";
                 models.password := "12345" |} in
  In sample.alice (database.users sample.db) /\
  database.username sample.alice = models.username user /\
  main.register sample.hash_password "2024-01-02T00:00:00" user sample.db
    = (Raises (HTTPException 400), sample.db) /\
  HTTPException 400 <> HTTPException 409.
Proof. repeat split; (reflexivity || discriminate || (simpl; tauto)). Qed.

(** ** Literal substrings *)

Section literal_facts.

Lemma append_cons c s u : String c s +:+ u = String c (s +:+ u).
Proof. reflexivity. Qed.

Lemma prefix_spec q t : String.prefix q t = true <-> exists post, t = q +:+ post.
Proof.
  revert t. induction q as [|c q IH]; intros t.
  - split; [intros _; now exists t | intros _; now destruct t].
  - destruct t as [|d t]; simpl.
    + split; [discriminate | intros [post H]; discriminate].
    + destruct (ascii_dec c d) as [->|Hne].
      * rewrite IH. split; intros [post H]; exists post; rewrite append_cons in *;
          congruence.
      * split; [discriminate|].
        intros [post H]. rewrite append_cons in H. congruence.
Qed.

Lemma str_in_nil q : pystr.str_in q EmptyString = String.prefix q EmptyString.
Proof. apply orb_false_r. Qed.

Lemma str_in_cons q d t :
  pystr.str_in q (String d t) = String.prefix q (String d t) || pystr.str_in q t.
Proof. reflexivity. Qed.

(** [str_in] decides [contains_literal]. *)
Lemma str_in_spec q t : pystr.str_in q t = true <-> contains_literal q t.
Proof.
  unfold contains_literal. induction t as [|d t IH].
  - rewrite str_in_nil, prefix_spec. split.
    + intros [post H]. now exists EmptyString, post.
    + intros [[|? ?] [post H]]; [now exists post | discriminate].
  - rewrite str_in_cons, orb_true_iff, prefix_spec, IH. split.
    + intros [[post H]|[pre [post H]]].
      * now exists EmptyString, post.
      * exists (String d pre), post. rewrite append_cons. now rewrite H.
    + intros [[|c pre] [post H]].
      * left. now exists post.
      * right. exists pre, post. rewrite append_cons in H. congruence.
Qed.

End literal_facts.

(** ** Where the code departs from the properties claimed *)

(** C1: the row skipped is the one ranked first, which need not be the
    resolved row. "Aliens" (row 1) shares its tags with "Alien" (row 0);
    both score 1 against row 1, the stable sort keeps row 0 first, and the
    resolved row comes back as its own recommendation while the equally
    similar row 0 is dropped in favour of a row that scores 0. *)
Theorem C1_resolved_row_is_recommended :
  recommender.resolve_title sample.g "Aliens" = Returns (Some 1) /\
  map fst (recommender.sim_scores sample.g 1) = [0; 1; 2; 3] /\
  recommender.movie_indices sample.g 1 2 = [1; 2] /\
  exists movies,
    recommender.get_recommendations sample.g "Aliens" 2 = Returns movies /\
    map models.title movies = ["Aliens"; "Up"].
Proof.
  split; [reflexivity|]. split; [reflexivity|]. split; [reflexivity|].
  eexists. split; reflexivity.
Qed.

(** C2: [get_poster_url] neither reads nor fills [_poster_cache]; two
    calls in a row for one title send two requests. *)
Theorem C2_get_poster_url_requests_twice :
  let first_call := recommender.get_poster_url "key" sample.tmdb "Alien" sample.no_posters in
  let second_call := recommender.get_poster_url "key" sample.tmdb "Alien" (snd first_call) in
  recommender.sent (snd second_call) = ["Alien"; "Alien"] /\
  recommender._poster_cache (snd second_call) = ∅.
Proof. split; reflexivity. Qed.

(** C4: the fallback compiles the query as a regular expression. A title
    that contains the query literally can be missed, a query that no
    title contains can resolve, and an unbalanced parenthesis raises. *)
Theorem C4_fallback_is_a_pattern :
  (pystr.str_in "(500) days" (pystr.lower "(500) Days of Summer") = true /\
   recommender.resolve_title sample.g "(500) Days" = Returns None) /\
  (forallb (fun e => negb (pystr.str_in "a.i" (pystr.lower (recommender.fillna EmptyString (fst e)))))
           (recommender.indices sample.g) = true /\
   recommender.resolve_title sample.g "A.I" = Returns (Some 0)) /\
  (pystr.str_in "(500" (pystr.lower "(500) Days of Summer") = true /\
   recommender.resolve_title sample.g "(500" = Raises re_error).
Proof. repeat split; reflexivity. Qed.

(** C6: [search_movies] compiles the query as a regular expression too:
    a literal match is missed, a query that no title contains finds rows,
    and an unbalanced parenthesis raises instead of returning. *)
Theorem C6_search_is_a_pattern :
  (pystr.str_in "(500) days" (pystr.lower "(500) Days of Summer") = true /\
   recommender.search_movies sample.g "(500) Days" 20 = Returns []) /\
  (forallb (fun r => negb (pystr.str_in "a.i" (pystr.lower (recommender.fillna EmptyString (recommender.title r)))))
           (recommender.df sample.g) = true /\
   exists movies,
     recommender.search_movies sample.g "A.I" 20 = Returns movies /\
     map models.title movies = ["Alien"; "Aliens"]) /\
  recommender.search_movies sample.g "(500" 20 = Raises re_error.
Proof.
  split; [split; reflexivity|]. split; [|reflexivity].
  split; [reflexivity|]. eexists. split; reflexivity.
Qed.

(** C7: [load_model] turns a missing title into the empty string, so the
    [dropna] of [get_all_titles] drops nothing and the empty string is
    listed. *)
Theorem C7_empty_title_is_listed :
  recommender.get_all_titles sample.g_untitled 50000 = ["Alien"; EmptyString; "Up"] /\
  In EmptyString (recommender.get_all_titles sample.g_untitled 50000).
Proof. split; [reflexivity | simpl; tauto]. Qed.


(** ** Queries without special characters

    On such queries the compiled pattern is the query itself and the
    search is the literal substring test. *)

Section plain_queries.

Import recommender.

Lemma parse_plain its o q :
  plain q = true ->
  re.parse_from [] {| re.alts := []; re.items := its; re.opened := o |} false q
  = re.POk (fold_left (fun acc it => re.Cat (fst it) acc) its (literal q)).
Proof.
  revert its o. induction q as [|c q IH]; intros its o Hq; [reflexivity|].
  simpl in Hq. apply andb_prop in Hq as [Hc Hq]. apply negb_true_iff in Hc.
  unfold re.is_special in Hc.
  repeat (apply orb_false_elim in Hc as [Hc ?]).
  cbn [re.parse_from]. repeat match goal with H : _ = false |- _ => rewrite H end.
  unfold re.push. cbn [re.alts re.items]. rewrite IH by assumption. reflexivity.
Qed.

Lemma compile_plain q : plain q = true -> re.compile q = re.POk (literal q).
Proof. intros H. unfold re.compile, re.empty_frame. now rewrite parse_plain. Qed.

Lemma match_prefix_void_cat r s : re.match_prefix (re.Cat re.Void r) s = false.
Proof. induction s as [|c s IH]; [reflexivity | exact IH]. Qed.

Lemma match_prefix_alt r1 r2 s :
  re.match_prefix (re.Alt r1 r2) s = re.match_prefix r1 s || re.match_prefix r2 s.
Proof.
  revert r1 r2. induction s as [|c s IH]; intros r1 r2; simpl.
  - now rewrite !orb_false_r.
  - rewrite IH.
    destruct (re.nullable r1), (re.nullable r2); simpl; try reflexivity.
    now rewrite orb_true_r.
Qed.

Lemma match_prefix_eps_cat r s : re.match_prefix (re.Cat re.Eps r) s = re.match_prefix r s.
Proof.
  destruct s as [|c s]; simpl; [reflexivity|].
  now rewrite match_prefix_alt, match_prefix_void_cat.
Qed.

Lemma match_prefix_literal q t : re.match_prefix (literal q) t = String.prefix q t.
Proof.
  revert t. induction q as [|c q IH]; intros t; [now destruct t|].
  destruct t as [|d t]; [reflexivity|]. simpl.
  destruct (ascii_dec c d) as [->|Hne].
  - rewrite Ascii.eqb_refl. now rewrite match_prefix_eps_cat.
  - assert (Hdc : Ascii.eqb d c = false) by (apply Ascii.eqb_neq; congruence).
    rewrite Hdc. apply match_prefix_void_cat.
Qed.

Lemma search_nil r : re.search r EmptyString = re.match_prefix r EmptyString.
Proof. apply orb_false_r. Qed.

Lemma search_cons r d t :
  re.search r (String d t) = re.match_prefix r (String d t) || re.search r t.
Proof. reflexivity. Qed.

Lemma search_literal q t : re.search (literal q) t = pystr.str_in q t.
Proof.
  induction t as [|d t IH].
  - now rewrite str_in_nil, search_nil, match_prefix_literal.
  - now rewrite str_in_cons, search_cons, IH, match_prefix_literal.
Qed.

Lemma str_contains_plain q col :
  plain q = true ->
  py.str_contains q (py.str_lower col) = Returns (map (cell_contains q) col).
Proof.
  intros H. unfold py.str_contains, py.str_lower. rewrite compile_plain by assumption.
  rewrite map_map. f_equal. apply map_ext.
  intros [t|]; simpl; [apply search_literal | reflexivity].
Qed.

(** The fallback of the title lookup is the literal substring search
    when the normalised query has no special character: the first entry
    whose lowercased title contains it, or nothing. *)
Lemma resolve_title_plain g title :
  let q := pystr.strip (pystr.lower title) in
  plain q = true ->
  find (titled q) (indices g) = None ->
  resolve_title g title
  = Returns (option_map snd (find (fun e => cell_contains q (fst e)) (indices g))).
Proof.
  intros q Hq Hnone. rewrite resolve_title_fallback by assumption.
  fold q. rewrite compile_plain by assumption. do 2 f_equal.
  apply find_ext. intros [[t|] i]; simpl; [apply search_literal | reflexivity].
Qed.

(** The rows [search_movies] returns for such a query: those whose
    lowercased title contains it, in catalogue order, cut by the slice. *)
Lemma search_movies_plain g query limit :
  let q := pystr.strip (pystr.lower query) in
  plain q = true ->
  search_movies g query limit
  = Returns (map _build_movie
               (py.slice (List.filter (fun r => cell_contains q (title r)) (df g)) 0 limit)).
Proof.
  intros q Hq. unfold search_movies. fold q.
  rewrite str_contains_plain by assumption. simpl.
  rewrite <- (select_map (fun r => cell_contains q (title r))), map_map. reflexivity.
Qed.

End plain_queries.

(** ** When the skipped row is the resolved one *)

Section first_rank.

Import recommender.

(** The stable sort puts first the earliest element of highest key. *)
Lemma sorted_desc_first_max {A} (key : A -> Q) (pre post : list A) (x : A) :
  Forall (fun y => (key y < key x)%Q) pre ->
  Forall (fun y => (key y <= key x)%Q) post ->
  py.sorted_desc key (pre ++ x :: post) = x :: py.sorted_desc key (pre ++ post).
Proof.
  intros Hpre Hpost. induction Hpre as [|p pre Hp _ IH].
  - simpl. unfold py.sorted_desc, py.sort_with. simpl.
    pose proof (sorted_desc_perm key post) as Hperm.
    unfold py.sorted_desc, py.sort_with in Hperm.
    destruct (fold_right _ [] post) as [|h t] eqn:E; [reflexivity|].
    simpl. assert (Hh : (key h <= key x)%Q).
    { rewrite List.Forall_forall in Hpost. apply Hpost.
      apply (Permutation_in _ (Permutation_sym Hperm)). now left. }
    apply Qle_bool_iff in Hh. now rewrite Hh.
  - change (py.sorted_desc key ((p :: pre) ++ x :: post))
      with (py.insert (fun y x0 => negb (Qle_bool (key y) (key x0))) p
              (py.sorted_desc key (pre ++ x :: post))).
    rewrite IH. simpl.
    assert (Hx : Qle_bool (key x) (key p) = false).
    { destruct (Qle_bool (key x) (key p)) eqn:E; [|reflexivity].
      apply Qle_bool_iff in E. exfalso. now apply (Qlt_not_le _ _ Hp). }
    rewrite Hx. reflexivity.
Qed.

Lemma combine_app_same {A B} (a1 a2 : list A) (b1 b2 : list B) :
  length a1 = length b1 ->
  combine (a1 ++ a2) (b1 ++ b2) = combine a1 b1 ++ combine a2 b2.
Proof.
  revert b1. induction a1 as [|a a1 IH]; intros [|b b1] H; simpl in *;
    try discriminate; [reflexivity|].
  f_equal. apply IH. now injection H.
Qed.

Lemma enumerate_app_cons {A} (l1 : list A) (x : A) (l2 : list A) :
  py.enumerate (l1 ++ x :: l2)
  = combine (seq 0 (length l1)) l1
    ++ (length l1, x) :: combine (seq (S (length l1)) (length l2)) l2.
Proof.
  unfold py.enumerate. rewrite length_app. simpl length.
  rewrite seq_app. simpl seq.
  rewrite combine_app_same by now rewrite length_seq.
  reflexivity.
Qed.

Lemma slice_after_head {A} (l : list A) (stop : Z) e :
  In e (py.slice l 1 stop) -> In e (skipn 1 l).
Proof.
  destruct l as [|a l]; [unfold py.slice; simpl; now rewrite firstn_nil|].
  unfold py.slice, py.bound. change (1 <? 0)%Z with false. cbv iota.
  replace (Z.to_nat (Z.min 1 (Z.of_nat (length (a :: l))))) with 1
    by (simpl length; lia).
  apply In_firstn.
Qed.

Lemma enumerate_In {A} (l : list A) i x :
  nth_error l i = Some x -> In (i, x) (py.enumerate l).
Proof.
  intros H.
  assert (Hlen : length (firstn i l) = i).
  { apply firstn_length_le, Nat.lt_le_incl, nth_error_Some. congruence. }
  rewrite <- (firstn_skipn_middle i l H), enumerate_app_cons, Hlen.
  apply in_or_app. right. now left.
Qed.

(** If every earlier score is strictly less than the one at [idx] and no
    later score is more, position [idx] is ranked first. *)
Lemma ranked_first (cosine_sim : list Q) idx s :
  nth_error cosine_sim idx = Some s ->
  Forall (fun x => (x < s)%Q) (firstn idx cosine_sim) ->
  Forall (fun x => (x <= s)%Q) (skipn (S idx) cosine_sim) ->
  exists rest, ranked cosine_sim = (idx, s) :: rest.
Proof.
  intros Hs Hbefore Hafter.
  assert (Hlen : length (firstn idx cosine_sim) = idx).
  { apply firstn_length_le, Nat.lt_le_incl, nth_error_Some. congruence. }
  assert (He : py.enumerate cosine_sim
               = combine (seq 0 idx) (firstn idx cosine_sim)
                 ++ (idx, s) :: combine (seq (S idx) (length (skipn (S idx) cosine_sim)))
                                        (skipn (S idx) cosine_sim)).
  { rewrite <- (firstn_skipn_middle idx cosine_sim Hs) at 1.
    now rewrite enumerate_app_cons, Hlen. }
  unfold ranked. rewrite He, sorted_desc_first_max.
  - eexists. reflexivity.
  - apply List.Forall_forall. intros [j x] Hj. apply in_combine_r in Hj. simpl.
    rewrite List.Forall_forall in Hbefore. now apply Hbefore.
  - apply List.Forall_forall. intros [j x] Hj. apply in_combine_r in Hj. simpl.
    rewrite List.Forall_forall in Hafter. now apply Hafter.
Qed.

(** Every array that is not empty has an earliest highest score. *)
Lemma earliest_maximum (l : list Q) :
  l <> [] ->
  exists m s, nth_error l m = Some s /\
              Forall (fun x => (x < s)%Q) (firstn m l) /\
              Forall (fun x => (x <= s)%Q) (skipn (S m) l).
Proof.
  induction l as [|x l IH]; [congruence|]. intros _.
  destruct l as [|y l'].
  { exists 0, x. repeat split; constructor. }
  destruct IH as [m [s [Hs [Hbefore Hafter]]]]; [discriminate|].
  destruct (Qlt_le_dec x s) as [Hlt|Hle].
  - exists (S m), s. split; [exact Hs|]. split; [|exact Hafter].
    change (firstn (S m) (x :: y :: l')) with (x :: firstn m (y :: l')).
    now constructor.
  - exists 0, x. split; [reflexivity|]. split; [constructor|].
    change (skipn 1 (x :: y :: l')) with (y :: l').
    rewrite <- (firstn_skipn_middle m (y :: l') Hs).
    apply Forall_app. split; [|constructor].
    + eapply List.Forall_impl; [|exact Hbefore]. intros a Ha. simpl in Ha.
      apply Qlt_le_weak. eapply Qlt_le_trans; eassumption.
    + exact Hle.
    + eapply List.Forall_impl; [|exact Hafter]. intros a Ha. simpl in Ha.
      eapply Qle_trans; eassumption.
Qed.

Lemma ranked_first_iff (cosine_sim : list Q) idx s :
  nth_error cosine_sim idx = Some s ->
  (exists rest, ranked cosine_sim = (idx, s) :: rest) <->
  Forall (fun x => (x < s)%Q) (firstn idx cosine_sim) /\
  Forall (fun x => (x <= s)%Q) (skipn (S idx) cosine_sim).
Proof.
  intros Hs. split; [|intros [Hb Ha]; now apply ranked_first].
  intros [rest Hr].
  destruct (earliest_maximum cosine_sim) as [m [s' [Hs' [Hb Ha]]]].
  { intros ->. destruct idx; discriminate. }
  destruct (ranked_first cosine_sim m s' Hs' Hb Ha) as [rest' Hr'].
  rewrite Hr in Hr'. injection Hr' as -> -> _. now split.
Qed.

End first_rank.

(** ** The poster cache *)

Section posters.

Import recommender.

Variable TMDB_API_KEY : string.
Variable tmdb : nat -> string -> Reply.

(** With a key configured every call of [get_poster_url] sends a
    request, and none touches the cache. *)
Lemma get_poster_url_sends title p :
  TMDB_API_KEY <> EmptyString ->
  sent (snd (get_poster_url TMDB_API_KEY tmdb title p)) = sent p ++ [title] /\
  _poster_cache (snd (get_poster_url TMDB_API_KEY tmdb title p)) = _poster_cache p.
Proof.
  intros Hkey. unfold get_poster_url.
  destruct (String.eqb_spec TMDB_API_KEY EmptyString) as [?|_]; [contradiction|].
  unfold requests_get. simpl. destruct (poster_of _); simpl; auto.
Qed.

(** [_fetch_poster_path] answers from the cache when the title is there,
    also when the cached value is the empty string. *)
Lemma fetch_poster_path_hit title url p :
  _poster_cache p !! title = Some url ->
  _fetch_poster_path TMDB_API_KEY tmdb title p = (url, p).
Proof. intros H. unfold _fetch_poster_path. now rewrite H. Qed.

(** With a key configured a miss stores what was found. *)
Lemma fetch_poster_path_stores title p :
  TMDB_API_KEY <> EmptyString ->
  _poster_cache p !! title = None ->
  let r := _fetch_poster_path TMDB_API_KEY tmdb title p in
  _poster_cache (snd r) !! title = Some (fst r) /\ sent (snd r) = sent p ++ [title].
Proof.
  intros Hkey Hmiss. unfold _fetch_poster_path. rewrite Hmiss.
  destruct (String.eqb_spec TMDB_API_KEY EmptyString) as [?|_]; [contradiction|].
  unfold requests_get. simpl. destruct (poster_of _); simpl;
    (split; [apply lookup_insert_eq | reflexivity]).
Qed.

(** Two calls of [_fetch_poster_path] in a row send at most one request. *)
Lemma fetch_poster_path_twice title p :
  TMDB_API_KEY <> EmptyString ->
  let r1 := _fetch_poster_path TMDB_API_KEY tmdb title p in
  let r2 := _fetch_poster_path TMDB_API_KEY tmdb title (snd r1) in
  length (sent (snd r2)) <= S (length (sent p)) /\ fst r2 = fst r1.
Proof.
  intros Hkey r1 r2. subst r2.
  destruct (_poster_cache p !! title) as [url|] eqn:Hc.
  - subst r1. rewrite !(fetch_poster_path_hit title url p Hc). simpl.
    rewrite (fetch_poster_path_hit title url p Hc). simpl. split; [lia | reflexivity].
  - destruct (fetch_poster_path_stores title p Hkey Hc) as [Hstored Hsent].
    fold r1 in Hstored, Hsent.
    rewrite (fetch_poster_path_hit title (fst r1) (snd r1) Hstored). simpl.
    rewrite Hsent, length_app. simpl. split; [lia | reflexivity].
Qed.

End posters.

(** ** Titles for autocompletion *)

Section titles.

Import recommender.

Lemma unique_from_spec seen l s :
  In s (py.unique_from seen l) <-> In s l /\ ~ In s seen.
Proof.
  revert seen. induction l as [|a l IH]; intros seen; simpl; [tauto|].
  destruct (existsb (String.eqb a) seen) eqn:E.
  - rewrite IH. apply existsb_exists in E as [b [Hb Hab]].
    apply String.eqb_eq in Hab. subst b.
    split; [tauto|]. intros [[->|H] Hn]; tauto.
  - assert (Ha : ~ In a seen).
    { intros Hin. assert (existsb (String.eqb a) seen = true); [|congruence].
      apply existsb_exists. exists a. split; [assumption | apply String.eqb_refl]. }
    simpl. rewrite IH. simpl. split.
    + intros [->|[H Hn]]; [tauto|]. split; [tauto|]. intros Hs. apply Hn. now right.
    + intros [[->|H] Hn]; [now left|].
      destruct (String.eqb_spec a s) as [->|Hne]; [now left|].
      right. split; [assumption|]. intros [?|?]; [congruence | contradiction].
Qed.

Lemma unique_from_NoDup seen l : List.NoDup (py.unique_from seen l).
Proof.
  revert seen. induction l as [|a l IH]; intros seen; simpl; [constructor|].
  destruct (existsb (String.eqb a) seen); [apply IH|].
  constructor; [|apply IH].
  rewrite unique_from_spec. simpl. tauto.
Qed.

Lemma NoDup_firstn {A} n (l : list A) : List.NoDup l -> List.NoDup (firstn n l).
Proof.
  revert n. induction l as [|a l IH]; intros n Hl; [now rewrite firstn_nil|].
  destruct n as [|n]; simpl; [constructor|].
  inversion Hl as [|? ? Ha Hl']; subst. constructor; [|auto].
  intros H. apply Ha. eapply In_firstn, H.
Qed.

Lemma NoDup_skipn {A} n (l : list A) : List.NoDup l -> List.NoDup (skipn n l).
Proof.
  revert l. induction n as [|n IH]; intros l Hl; [exact Hl|].
  destruct l as [|a l]; [exact Hl|]. simpl. apply IH. now inversion Hl.
Qed.

Lemma dropna_In {A} (col : list (option A)) a : In a (py.dropna col) -> In (Some a) col.
Proof.
  induction col as [|[b|] col IH]; simpl; [tauto | | tauto].
  intros [->|H]; [now left | right; auto].
Qed.

(** No title is listed twice, and every title listed is a title of the
    table. *)
Lemma get_all_titles_distinct g limit :
  List.NoDup (get_all_titles g limit) /\
  forall s, In s (get_all_titles g limit) -> In (Some s) (map title (df g)).
Proof.
  unfold get_all_titles, py.slice, py.unique. split.
  - apply NoDup_firstn, NoDup_skipn, unique_from_NoDup.
  - intros s Hs. apply In_firstn, In_skipn in Hs.
    apply unique_from_spec in Hs as [Hs _]. now apply dropna_In.
Qed.

(** After [load_model] the list is the first [limit] distinct titles,
    missing ones counted as the empty string. *)
Lemma get_all_titles_loaded df_pkl indices_pkl transform (limit : nat) :
  get_all_titles (load_model df_pkl indices_pkl transform) (Z.of_nat limit)
  = firstn limit (py.unique (map (fun r => fillna EmptyString (raw_title r)) df_pkl)).
Proof.
  unfold get_all_titles.
  assert (Hcol : py.dropna (map title (df (load_model df_pkl indices_pkl transform)))
                 = map (fun r => fillna EmptyString (raw_title r)) df_pkl).
  { simpl. induction df_pkl as [|r rows IH]; simpl; [reflexivity | now rewrite IH]. }
  rewrite Hcol. change 0%Z with (Z.of_nat 0). rewrite slice_nonneg.
  simpl skipn. now rewrite Nat.sub_0_r.
Qed.

End titles.

(** ** What [load_model] establishes *)

Section loading.

Import recommender.

(** The matrix has one vector per row, every title is filled in, and
    the globals are consistent as soon as the pickled index points into
    the pickled table. *)
Lemma load_model_consistent df_pkl indices_pkl transform :
  Forall (fun e => snd e < length df_pkl) indices_pkl ->
  consistent (load_model df_pkl indices_pkl transform).
Proof.
  intros H. unfold consistent. simpl. rewrite !length_map. split; [reflexivity | exact H].
Qed.

Lemma load_model_titles df_pkl indices_pkl transform r :
  In r (df (load_model df_pkl indices_pkl transform)) -> title r <> None.
Proof.
  simpl. intros [raw [<- _]]%in_map_iff. discriminate.
Qed.

End loading.

(** * Further properties of the code *)

(** ** Ranking of the neighbours *)

Section ranking.

Import recommender.

Lemma map_fst_combine {A B} (a : list A) (b : list B) :
  length a = length b -> map fst (combine a b) = a.
Proof.
  revert b. induction a as [|x a IH]; intros [|y b] H; simpl in *;
    try discriminate; [reflexivity|].
  f_equal. apply IH. now injection H.
Qed.

Lemma enumerate_positions {A} (l : list A) : map fst (py.enumerate l) = seq 0 (length l).
Proof. unfold py.enumerate. apply map_fst_combine, length_seq. Qed.

Lemma combine_seq_nth {A} (l : list A) a i x :
  In (i, x) (combine (seq a (length l)) l) -> a <= i /\ nth_error l (i - a) = Some x.
Proof.
  revert a. induction l as [|y l IH]; intros a; simpl; [tauto|].
  intros [H|H].
  - injection H as <- <-. rewrite Nat.sub_diag. auto.
  - apply IH in H as [Hle Hn]. split; [lia|].
    replace (i - a) with (S (i - S a)) by lia. exact Hn.
Qed.

Lemma enumerate_nth {A} (l : list A) i x : In (i, x) (py.enumerate l) -> nth_error l i = Some x.
Proof.
  intros H. apply combine_seq_nth in H as [_ H]. now rewrite Nat.sub_0_r in H.
Qed.

Lemma sim_scores_positions g idx : List.NoDup (map fst (sim_scores g idx)).
Proof.
  unfold sim_scores, ranked.
  eapply Permutation_NoDup.
  - apply Permutation_map, sorted_desc_perm.
  - rewrite enumerate_positions. apply seq_NoDup.
Qed.

Lemma ranked_positions (cosine_sim : list Q) : List.NoDup (map fst (ranked cosine_sim)).
Proof.
  unfold ranked. eapply Permutation_NoDup.
  - apply Permutation_map, sorted_desc_perm.
  - rewrite enumerate_positions. apply seq_NoDup.
Qed.

(** The position ranked first is not among those after it. *)
Lemma first_not_after (cosine_sim : list Q) idx s rest n :
  ranked cosine_sim = (idx, s) :: rest ->
  ~ In idx (positions_after_first cosine_sim n).
Proof.
  intros Hr Hin. unfold positions_after_first in Hin.
  apply in_map_iff in Hin as [[j x] [Hj Hin]]. simpl in Hj. subst j.
  apply slice_after_head in Hin. rewrite Hr in Hin. simpl in Hin.
  pose proof (ranked_positions cosine_sim) as Hnd. rewrite Hr in Hnd. simpl in Hnd.
  inversion Hnd as [|? ? Hnot _]. apply Hnot.
  apply in_map_iff. now exists (idx, x).
Qed.

(** A position that is not ranked first is among those after the first
    as soon as [n] reaches the number of scores. *)
Lemma not_first_is_after (cosine_sim : list Q) idx s :
  nth_error cosine_sim idx = Some s ->
  (forall rest, ranked cosine_sim <> (idx, s) :: rest) ->
  forall n : nat, length cosine_sim <= n ->
  In idx (positions_after_first cosine_sim (Z.of_nat n)).
Proof.
  intros Hs Hnot n Hn.
  assert (Hin : In (idx, s) (ranked cosine_sim)).
  { unfold ranked. apply (Permutation_in _ (sorted_desc_perm snd _)).
    now apply enumerate_In. }
  assert (Hlen : length (ranked cosine_sim) = length cosine_sim).
  { unfold ranked. rewrite <- (Permutation_length (sorted_desc_perm snd _)).
    unfold py.enumerate. rewrite length_combine, length_seq. apply Nat.min_id. }
  rewrite positions_after_first_nat.
  destruct (ranked cosine_sim) as [|h rest] eqn:Hr; [contradiction|].
  destruct Hin as [->|Hin]; [now elim (Hnot rest)|].
  change (skipn 1 (h :: rest)) with rest.
  rewrite firstn_all2 by (simpl in Hlen; lia).
  apply in_map_iff. now exists (idx, s).
Qed.

(** A title resolves to a position stored in the index. *)
Lemma resolve_title_in_index g title idx :
  resolve_title g title = Returns (Some idx) ->
  exists e, In e (indices g) /\ snd e = idx.
Proof.
  destruct (find (titled (pystr.strip (pystr.lower title))) (indices g)) as [e|] eqn:Hf.
  - rewrite (resolve_title_exact _ _ e Hf). intros [= <-].
    exists e. split; [now apply find_some in Hf | reflexivity].
  - rewrite (resolve_title_fallback _ _ Hf).
    destruct (re.compile _) as [r| |]; try discriminate.
    destruct (find (matched r) (indices g)) as [e|] eqn:Hm; simpl; try discriminate.
    intros [= <-]. exists e. split; [now apply find_some in Hm | reflexivity].
Qed.

End ranking.

(** X1: on the score array [linear_kernel] returned, the resolved
    position is the one ranked first, the one [sim_scores[1:n+1]] skips,
    exactly when every earlier position scores strictly less and no
    later position scores more. It is then among the recommended
    positions for no [n]; otherwise it is among them as soon as [n]
    reaches the number of rows. *)
Theorem X1_first_ranked_row_is_skipped (cosine_sim : list Q) (idx : nat) (s : Q) :
  nth_error cosine_sim idx = Some s ->
  let first := exists rest, recommender.ranked cosine_sim = (idx, s) :: rest in
  (first <->
   Forall (fun x => (x < s)%Q) (firstn idx cosine_sim) /\
   Forall (fun x => (x <= s)%Q) (skipn (S idx) cosine_sim)) /\
  (first -> forall n, ~ In idx (recommender.positions_after_first cosine_sim n)) /\
  (~ first ->
   forall n : nat, length cosine_sim <= n ->
   In idx (recommender.positions_after_first cosine_sim (Z.of_nat n))).
Proof.
  intros Hs first. subst first. split; [now apply ranked_first_iff|]. split.
  - intros [rest Hr] n. now apply (first_not_after cosine_sim idx s rest).
  - intros Hnot. apply (not_first_is_after cosine_sim idx s Hs).
    intros rest Hr. apply Hnot. now exists rest.
Qed.

Lemma X1_first_ranked_row_is_skipped_witness :
  (exists rest, recommender.ranked [0; 1; 1]%Q = (1, 1%Q) :: rest) /\
  ~ In 1 (recommender.positions_after_first [0; 1; 1]%Q 2) /\
  In 2 (recommender.positions_after_first [0; 1; 1]%Q 3).
Proof.
  destruct (X1_first_ranked_row_is_skipped [0; 1; 1]%Q 1 1%Q eq_refl) as [Hiff [Hskip _]].
  destruct (X1_first_ranked_row_is_skipped [0; 1; 1]%Q 2 1%Q eq_refl) as [Hiff' [_ Hkept]].
  assert (Hfirst : exists rest, recommender.ranked [0; 1; 1]%Q = (1, 1%Q) :: rest).
  { apply Hiff. split; repeat constructor; discriminate. }
  split; [exact Hfirst|]. split; [now apply Hskip|].
  refine (Hkept _ 3%nat _); [|simpl; lia].
  intros Hsecond. apply Hiff' in Hsecond as [Hb _].
  inversion Hb as [|? ? _ Hb']. inversion Hb' as [|? ? Hlt _]. discriminate Hlt.
Defined.

(** X2: for [n >= 0] the positions recommended are at most [n], they are
    pairwise distinct, and each is a row of the matrix. *)
Theorem X2_recommended_positions (g : recommender.Globals) (idx : nat) (n : Z) :
  (0 <= n)%Z ->
  (Z.of_nat (length (recommender.movie_indices g idx n)) <= n)%Z /\
  List.NoDup (recommender.movie_indices g idx n) /\
  Forall (fun i => i < length (recommender.tfidf_matrix g)) (recommender.movie_indices g idx n).
Proof.
  intros Hn. split; [now apply movie_indices_length_le|].
  split; [|apply movie_indices_in_range].
  unfold recommender.movie_indices, py.slice.
  rewrite <- firstn_map, <- skipn_map.
  apply NoDup_firstn, NoDup_skipn, sim_scores_positions.
Qed.

Lemma X2_recommended_positions_witness :
  (Z.of_nat (length (recommender.movie_indices sample.g 0 2)) <= 2)%Z /\
  List.NoDup (recommender.movie_indices sample.g 0 2) /\
  Forall (fun i => i < length (recommender.tfidf_matrix sample.g))
         (recommender.movie_indices sample.g 0 2).
Proof. apply (X2_recommended_positions sample.g 0 2). lia. Defined.

(** X3: on the score array [linear_kernel] returned, the ranking pairs
    every position with its own score, highest score first and equal
    scores in position order; the positions recommended are those ranked
    second to [n+1]-th, so they come in non-increasing order of score
    and no position ranked after them scores more than any of them. *)
Theorem X3_recommendations_follow_the_scores (cosine_sim : list Q) (n : nat) :
  let ranked := recommender.ranked cosine_sim in
  let kept := firstn n (skipn 1 ranked) in
  recommender.positions_after_first cosine_sim (Z.of_nat n) = map fst kept /\
  length ranked = length cosine_sim /\
  (forall i s, In (i, s) ranked <-> nth_error cosine_sim i = Some s) /\
  StronglySorted (descending snd) ranked /\
  (forall p, List.filter (fun e => Qeq_bool (snd e) p) ranked
             = List.filter (fun e => Qeq_bool (snd e) p) (py.enumerate cosine_sim)) /\
  StronglySorted (descending snd) kept /\
  (forall e e', In e kept -> In e' (skipn n (skipn 1 ranked)) -> (snd e' <= snd e)%Q).
Proof.
  intros ranked kept. subst ranked kept.
  split; [apply positions_after_first_nat|]. split; [|split; [|split; [|split; [|split]]]].
  - unfold recommender.ranked.
    rewrite <- (Permutation_length (sorted_desc_perm snd _)). apply enumerate_length.
  - intros i s. unfold recommender.ranked. split.
    + intros H. apply enumerate_nth.
      exact (Permutation_in _ (Permutation_sym (sorted_desc_perm snd _)) H).
    + intros H. apply (Permutation_in _ (sorted_desc_perm snd _)). now apply enumerate_In.
  - apply sorted_desc_sorted.
  - intros p. apply sorted_desc_stable.
  - apply StronglySorted_firstn, StronglySorted_skipn, sorted_desc_sorted.
  - intros e e'. apply ranked_cut.
Qed.

(** X4: on consistent globals a title that resolves never makes
    [get_recommendations] fail: for [n >= 0] it returns exactly
    [min n (rows - 1)] display records. *)
Theorem X4_recommendations_count (g : recommender.Globals) (title : string)
    (idx : nat) (n : Z) :
  consistent g ->
  recommender.resolve_title g title = Returns (Some idx) ->
  (0 <= n)%Z ->
  exists movies,
    recommender.get_recommendations g title n = Returns movies /\
    length movies = Nat.min (Z.to_nat n) (length (recommender.df g) - 1).
Proof.
  intros [Hlen Hix] Hres Hn.
  destruct (resolve_title_in_index g title idx Hres) as [e [Hin <-]].
  assert (Hidx : snd e < length (recommender.tfidf_matrix g)).
  { rewrite Hlen. rewrite List.Forall_forall in Hix. now apply Hix. }
  pose proof (movie_indices_in_range g (snd e) n) as Hrange. rewrite Hlen in Hrange.
  destruct (iloc_in_range _ _ Hrange) as [rs [Hrs Hrslen]].
  exists (map recommender._build_movie rs). split.
  - unfold recommender.get_recommendations. rewrite Hres. simpl.
    rewrite (check_pairwise_arrays_row _ _ Hidx). simpl. now rewrite Hrs.
  - rewrite length_map, Hrslen, <- (Z2Nat.id n) by lia.
    rewrite movie_indices_nat, length_map, length_firstn, length_skipn, sim_scores_length.
    apply Nat.ltb_lt in Hidx. rewrite Hidx, Hlen, Z2Nat.id by lia. reflexivity.
Qed.

Lemma X4_recommendations_count_witness :
  exists movies,
    recommender.get_recommendations sample.g "up" 12 = Returns movies /\
    length movies = Nat.min (Z.to_nat 12) (length (recommender.df sample.g) - 1).
Proof.
  apply (X4_recommendations_count sample.g "up" 2 12);
    [split; [reflexivity | repeat constructor] | reflexivity | lia].
Defined.

(** ** Queries *)

Section queries.

Import recommender.

Lemma find_none_iff {A} (f : A -> bool) l :
  find f l = None <-> forall a, In a l -> f a = false.
Proof.
  split; [apply find_none|].
  induction l as [|a l IH]; simpl; [reflexivity|].
  intros H. rewrite (H a) by now left. apply IH. intros b Hb. apply H. now right.
Qed.

Lemma cell_contains_spec q cell :
  cell_contains q cell = true <->
  exists t, cell = Some t /\ contains_literal q (pystr.lower t).
Proof.
  destruct cell as [t|]; simpl.
  - rewrite str_in_spec. split; [intros H; now exists t | intros [t' [[= <-] H]]; exact H].
  - split; [discriminate | intros [t [H _]]; discriminate].
Qed.

Lemma str_in_empty t : pystr.str_in EmptyString t = true.
Proof. destruct t; reflexivity. Qed.

Lemma all_space_lower ws : pystr.all_space (pystr.lower ws) = pystr.all_space ws.
Proof.
  induction ws as [|c ws IH]; simpl; [reflexivity|].
  now rewrite isspace_lower_char, IH.
Qed.

(** Blanks around a string do not change what [strip] leaves of it. *)
Lemma strip_blanks_around ws1 t ws2 :
  pystr.all_space ws1 = true -> pystr.all_space ws2 = true ->
  pystr.strip (ws1 +:+ t +:+ ws2) = pystr.strip t.
Proof.
  intros H1 H2. unfold pystr.strip. rewrite lstrip_space_app by assumption.
  induction t as [|c t IH].
  - simpl. now rewrite lstrip_space.
  - rewrite append_cons. simpl. destruct (pystr.isspace c); [exact IH|].
    rewrite <- append_cons. now apply rstrip_app_space.
Qed.

Lemma normalise_same ws1 q ws2 q' :
  pystr.all_space ws1 = true -> pystr.all_space ws2 = true ->
  pystr.lower q = pystr.lower q' ->
  pystr.strip (pystr.lower (ws1 +:+ q +:+ ws2)) = pystr.strip (pystr.lower q').
Proof.
  intros H1 H2 Hq. rewrite !lower_app, Hq.
  apply strip_blanks_around; now rewrite all_space_lower.
Qed.

Lemma compile_cannot_start c rest :
  cannot_start c = true -> re.compile (String c rest) = re.PError.
Proof.
  unfold cannot_start, re.is_quantifier. rewrite !orb_true_iff.
  intros [[[H|H]|H]|H]; apply Ascii.eqb_eq in H; subst c; reflexivity.
Qed.

Lemma filter_all {A} (f : A -> bool) l :
  (forall a, In a l -> f a = true) -> List.filter f l = l.
Proof.
  induction l as [|a l IH]; simpl; [reflexivity|].
  intros H. rewrite (H a) by now left. f_equal. apply IH. intros b Hb. apply H. now right.
Qed.

End queries.

(** X5: when the normalised query holds no character that is special in
    a pattern and no title equals it, the lookup of [get_recommendations]
    is the literal substring search: it returns the position of the first
    index entry whose lowercased title contains the query, and nothing
    exactly when no lowercased title contains it. *)
Theorem X5_plain_query_falls_back_to_substring (g : recommender.Globals) (title : string) :
  let q := pystr.strip (pystr.lower title) in
  plain q = true ->
  find (titled q) (recommender.indices g) = None ->
  recommender.resolve_title g title
  = Returns (option_map snd
               (find (fun e => cell_contains q (fst e)) (recommender.indices g))) /\
  (recommender.resolve_title g title = Returns None <->
   forall t i, In (Some t, i) (recommender.indices g) ->
               ~ contains_literal q (pystr.lower t)) /\
  (forall idx, recommender.resolve_title g title = Returns (Some idx) ->
               exists t, In (Some t, idx) (recommender.indices g) /\
                         contains_literal q (pystr.lower t)).
Proof.
  intros q Hq Hnone.
  pose proof (resolve_title_plain g title Hq Hnone) as Hres. fold q in Hres.
  split; [exact Hres|]. rewrite Hres. clear Hres Hnone.
  destruct (find (fun e => cell_contains q (fst e)) (recommender.indices g))
    as [e|] eqn:Hf; simpl; split.
  - split; [discriminate|]. intros Hno. exfalso.
    apply find_some in Hf as [Hin Hc]. apply cell_contains_spec in Hc as [t [Ht Hc]].
    destruct e as [cell i]. simpl in Ht. subst cell. exact (Hno t i Hin Hc).
  - intros idx [= <-]. apply find_some in Hf as [Hin Hc].
    apply cell_contains_spec in Hc as [t [Ht Hc]].
    destruct e as [cell i]. simpl in Ht. subst cell. now exists t.
  - split; [|reflexivity]. intros _ t i Hin Hc.
    apply (find_none _ _ Hf) in Hin. simpl in Hin.
    apply str_in_spec in Hc. congruence.
  - discriminate.
Qed.

Lemma X5_plain_query_falls_back_to_substring_witness :
  recommender.resolve_title sample.g " LIEN "
  = Returns (option_map snd
               (find (fun e => cell_contains "lien" (fst e)) (recommender.indices sample.g))) /\
  recommender.resolve_title sample.g " LIEN " = Returns (Some 0).
Proof.
  destruct (X5_plain_query_falls_back_to_substring sample.g " LIEN " eq_refl eq_refl)
    as [H _].
  split; [exact H | reflexivity].
Defined.

(** X6: when the normalised query holds no character that is special in
    a pattern and [limit >= 0], [search_movies] returns the display
    records of the first [limit] rows, in catalogue order, whose
    lowercased title contains the query as a literal substring. *)
Theorem X6_plain_query_searches_substring (g : recommender.Globals) (query : string)
    (limit : Z) :
  let q := pystr.strip (pystr.lower query) in
  let hits := List.filter (fun r => cell_contains q (recommender.title r)) (recommender.df g) in
  plain q = true ->
  (0 <= limit)%Z ->
  recommender.search_movies g query limit
  = Returns (map recommender._build_movie (firstn (Z.to_nat limit) hits)) /\
  (forall r, In r hits <->
             In r (recommender.df g) /\
             exists t, recommender.title r = Some t /\ contains_literal q (pystr.lower t)).
Proof.
  intros q hits Hq Hlimit. split.
  - rewrite (search_movies_plain g query limit Hq). fold q. fold hits.
    rewrite <- (Z2Nat.id limit) at 1 by assumption. change 0%Z with (Z.of_nat 0).
    rewrite slice_nonneg. simpl skipn. now rewrite Nat.sub_0_r.
  - intros r. unfold hits. rewrite filter_In, cell_contains_spec. reflexivity.
Qed.

Lemma X6_plain_query_searches_substring_witness :
  let hits := List.filter (fun r => cell_contains "al" (recommender.title r))
                          (recommender.df sample.g) in
  recommender.search_movies sample.g "AL " 1
  = Returns (map recommender._build_movie (firstn 1 hits)) /\
  (forall r, In r hits <->
             In r (recommender.df sample.g) /\
             exists t, recommender.title r = Some t /\
                       contains_literal "al" (pystr.lower t)).
Proof.
  apply (X6_plain_query_searches_substring sample.g "AL " 1); [reflexivity | lia].
Defined.

(** X7: a query whose normalised form starts with a star, a plus sign, a
    question mark or a closing parenthesis makes [search_movies] raise
    [re.error], on any catalogue; [get_recommendations] raises too unless
    a title equals the query. *)
Theorem X7_leading_special_character_raises (g : recommender.Globals) (query : string)
    (c : ascii) (rest : string) :
  pystr.strip (pystr.lower query) = String c rest ->
  cannot_start c = true ->
  (forall limit, recommender.search_movies g query limit = Raises re_error) /\
  (find (titled (String c rest)) (recommender.indices g) = None ->
   forall n, recommender.get_recommendations g query n = Raises re_error).
Proof.
  intros Hq Hc. pose proof (compile_cannot_start c rest Hc) as Hcomp. split.
  - intros limit. unfold recommender.search_movies, py.str_contains.
    now rewrite Hq, Hcomp.
  - intros Hnone n. unfold recommender.get_recommendations.
    rewrite resolve_title_fallback by now rewrite Hq.
    now rewrite Hq, Hcomp.
Qed.

Lemma X7_leading_special_character_raises_witness :
  (forall limit,
      recommender.search_movies sample.g "*batteries not included" limit = Raises re_error) /\
  (forall n,
      recommender.get_recommendations sample.g "*batteries not included" n = Raises re_error).
Proof.
  destruct (X7_leading_special_character_raises sample.g "*batteries not included"
              "*" "batteries not included" eq_refl eq_refl) as [H1 H2].
  split; [exact H1 | exact (H2 eq_refl)].
Defined.

(** X8: once [load_model] has run, a query that is empty or all white
    space makes [search_movies] return the first [limit] rows of the
    catalogue, whatever their titles. *)
Theorem X8_blank_search_lists_the_catalogue (df_pkl : list recommender.RawRow)
    (indices_pkl : list (option string * nat)) (transform : string -> list Q)
    (query : string) (limit : nat) :
  pystr.all_space query = true ->
  recommender.search_movies (recommender.load_model df_pkl indices_pkl transform)
                            query (Z.of_nat limit)
  = Returns (map recommender._build_movie (firstn limit (map recommender.clean df_pkl))).
Proof.
  intros Hq. pose proof (normalise_blank query Hq) as Hn.
  rewrite search_movies_plain by now rewrite Hn.
  rewrite Hn. change 0%Z with (Z.of_nat 0). rewrite slice_nonneg. simpl skipn.
  rewrite Nat.sub_0_r, filter_all; [reflexivity|].
  intros r [raw [<- _]]%in_map_iff. apply str_in_empty.
Qed.

Lemma X8_blank_search_lists_the_catalogue_witness :
  recommender.search_movies sample.g "  " 2
  = Returns (map recommender._build_movie (firstn 2 (map recommender.clean sample.df_pkl))).
Proof.
  apply (X8_blank_search_lists_the_catalogue sample.df_pkl sample.indices_pkl
           sample.transform "  " 2).
  reflexivity.
Defined.

(** X9: the casing of a query and the white space around it change
    nothing: title lookup, recommendations and search give the same
    outcome for the two spellings. *)
Theorem X9_casing_and_blanks_are_ignored (g : recommender.Globals)
    (ws1 q ws2 q' : string) (n limit : Z) :
  pystr.all_space ws1 = true -> pystr.all_space ws2 = true ->
  pystr.lower q = pystr.lower q' ->
  recommender.resolve_title g (ws1 +:+ q +:+ ws2) = recommender.resolve_title g q' /\
  recommender.get_recommendations g (ws1 +:+ q +:+ ws2) n
  = recommender.get_recommendations g q' n /\
  recommender.search_movies g (ws1 +:+ q +:+ ws2) limit
  = recommender.search_movies g q' limit.
Proof.
  intros H1 H2 Hq. pose proof (normalise_same ws1 q ws2 q' H1 H2 Hq) as Hn.
  assert (Hres : recommender.resolve_title g (ws1 +:+ q +:+ ws2)
                 = recommender.resolve_title g q').
  { unfold recommender.resolve_title. now rewrite Hn. }
  split; [exact Hres|]. split.
  - unfold recommender.get_recommendations. now rewrite Hres.
  - unfold recommender.search_movies. now rewrite Hn.
Qed.

Lemma X9_casing_and_blanks_are_ignored_witness :
  recommender.resolve_title sample.g ("  " +:+ "ALIENS" +:+ " ")
  = recommender.resolve_title sample.g "aliens" /\
  recommender.get_recommendations sample.g ("  " +:+ "ALIENS" +:+ " ") 3
  = recommender.get_recommendations sample.g "aliens" 3 /\
  recommender.search_movies sample.g ("  " +:+ "ALIENS" +:+ " ") 20
  = recommender.search_movies sample.g "aliens" 20.
Proof.
  apply (X9_casing_and_blanks_are_ignored sample.g "  " "ALIENS" " " "aliens" 3 20);
    reflexivity.
Defined.

(** ** Display records, trending and titles *)

Section listings.

Import recommender.

Lemma take_length k s : String.length (pystr.take k s) <= k.
Proof.
  unfold pystr.take. revert s. induction k as [|k IH]; intros [|c s]; simpl; try lia.
  specialize (IH s). lia.
Qed.

Lemma take_prefix k s : exists rest, s = pystr.take k s +:+ rest.
Proof.
  unfold pystr.take. revert s. induction k as [|k IH]; intros [|c s]; simpl.
  - now exists EmptyString.
  - now exists (String c s).
  - now exists EmptyString.
  - destruct (IH s) as [rest H]. exists rest. rewrite append_cons. now rewrite <- H.
Qed.

Lemma take_all k s : String.length s <= k -> pystr.take k s = s.
Proof.
  unfold pystr.take. revert s. induction k as [|k IH]; intros [|c s]; simpl; intros H;
    try reflexivity; [lia|].
  f_equal. apply IH. lia.
Qed.

Lemma unique_from_length seen l : length (py.unique_from seen l) <= length l.
Proof.
  revert seen. induction l as [|a l IH]; intros seen; simpl; [lia|].
  destruct (existsb _ seen); [specialize (IH seen) | specialize (IH (a :: seen))];
    simpl; lia.
Qed.

Lemma unique_from_sublist seen l : sublist (py.unique_from seen l) l.
Proof.
  revert seen. induction l as [|a l IH]; intros seen; simpl; [constructor|].
  destruct (existsb _ seen); [apply sublist_cons | apply sublist_skip]; apply IH.
Qed.

Lemma dropna_length {A} (col : list (option A)) : length (py.dropna col) <= length col.
Proof. induction col as [|[a|] col IH]; simpl; lia. Qed.

Lemma In_dropna {A} (col : list (option A)) a : In (Some a) col -> In a (py.dropna col).
Proof.
  induction col as [|[b|] col IH]; simpl; [tauto | |].
  - intros [[= ->]|H]; [now left | right; auto].
  - intros [H|H]; [discriminate | auto].
Qed.

End listings.

(** X10: a display record carries the row's title, at most the first 200
    characters of its overview (the whole overview when it is no longer),
    and no poster URL. *)
Theorem X10_display_record (row : recommender.Row) :
  let m := recommender._build_movie row in
  String.length (models.overview m) <= 200 /\
  (exists rest, recommender.overview row = models.overview m +:+ rest) /\
  (String.length (recommender.overview row) <= 200 ->
   models.overview m = recommender.overview row) /\
  (forall t, recommender.title row = Some t -> models.title m = t) /\
  models.poster_url m = None.
Proof.
  simpl. split; [apply take_length|]. split; [apply take_prefix|].
  split; [apply take_all|]. split; [|reflexivity].
  intros t Ht. now rewrite Ht.
Qed.

Lemma get_trending_slice (g : recommender.Globals) (page per_page : Z) :
  (1 <= page)%Z -> (0 <= per_page)%Z ->
  recommender.get_trending g page per_page
  = map recommender._build_movie
      (firstn (Z.to_nat per_page)
         (skipn (Z.to_nat ((page - 1) * per_page))
            (recommender.sort_values recommender.popularity false (recommender.df g)))).
Proof.
  intros Hpage Hpp.
  rewrite <- (Z2Nat.id page), <- (Z2Nat.id per_page) at 1 by lia.
  rewrite get_trending_nat by lia. do 3 f_equal. nia.
Qed.

(** X11: the trending route answers 422 when [page < 1] or [per_page] is
    outside [1..50]; otherwise it returns the requested page number with
    at most [per_page] display records, each built from a row of the
    catalogue. *)
Theorem X11_trending_route (g : recommender.Globals) (page per_page : Z) :
  ((page < 1 \/ per_page < 1 \/ 50 < per_page)%Z ->
   main.trending_movies g page per_page = Raises (HTTPException 422)) /\
  ((1 <= page)%Z -> (1 <= per_page <= 50)%Z ->
   exists movies,
     main.trending_movies g page per_page = Returns (movies, page) /\
     (Z.of_nat (length movies) <= per_page)%Z /\
     forall m, In m movies ->
               exists r, In r (recommender.df g) /\ m = recommender._build_movie r).
Proof.
  unfold main.trending_movies. split.
  - intros H.
    destruct (Z.ltb_spec page 1), (Z.ltb_spec per_page 1), (Z.ltb_spec 50 per_page);
      simpl; try reflexivity; lia.
  - intros Hpage [Hlo Hhi].
    destruct (Z.ltb_spec page 1), (Z.ltb_spec per_page 1), (Z.ltb_spec 50 per_page);
      simpl; try lia.
    eexists. split; [reflexivity|].
    pose proof (sort_values_popularity_perm g) as Hperm.
    rewrite get_trending_slice by lia. split.
    + rewrite length_map. pose proof (firstn_le_length (Z.to_nat per_page)
        (skipn (Z.to_nat ((page - 1) * per_page))
           (recommender.sort_values recommender.popularity false (recommender.df g)))). lia.
    + intros m [r [<- Hr]]%in_map_iff. exists r. split; [|reflexivity].
      apply In_firstn, In_skipn in Hr.
      now apply (Permutation_in _ (Permutation_sym Hperm)).
Qed.

Lemma X11_trending_route_witness :
  (main.trending_movies sample.g 1 51 = Raises (HTTPException 422)) /\
  exists movies,
    main.trending_movies sample.g 2 3 = Returns (movies, 2%Z) /\
    (Z.of_nat (length movies) <= 3)%Z /\
    forall m, In m movies ->
              exists r, In r (recommender.df sample.g) /\ m = recommender._build_movie r.
Proof.
  destruct (X11_trending_route sample.g 1 51) as [H422 _].
  destruct (X11_trending_route sample.g 2 3) as [_ Hok].
  split; [apply H422; lia | apply Hok; lia].
Defined.

Lemma unique_from_app seen pre rest :
  exists seen',
    (forall x, In x seen' <-> In x seen \/ In x pre) /\
    py.unique_from seen (pre ++ rest)
    = py.unique_from seen pre ++ py.unique_from seen' rest.
Proof.
  revert seen. induction pre as [|a pre IH]; intros seen.
  { exists seen. split; [simpl; tauto | reflexivity]. }
  simpl. destruct (existsb (String.eqb a) seen) eqn:E.
  - destruct (IH seen) as [seen' [Hmem Heq]]. exists seen'. split; [|exact Heq].
    intros x. rewrite Hmem. split; [tauto|].
    intros [H|[<-|H]]; [tauto | | tauto].
    apply existsb_exists in E as [b [Hb Hab]]. apply String.eqb_eq in Hab. subst b. tauto.
  - destruct (IH (a :: seen)) as [seen' [Hmem Heq]]. exists seen'. split.
    + intros x. rewrite Hmem. simpl. tauto.
    + simpl. now rewrite Heq.
Qed.

(** The first appearance of a title splits the list of distinct titles:
    before it come the titles that appear before it, after it those that
    appear only after it. *)
Lemma unique_first_appearance pre s post :
  ~ In s pre ->
  exists pre' post',
    py.unique (pre ++ s :: post) = pre' ++ s :: post' /\
    (forall x, In x pre' <-> In x pre) /\
    (forall x, In x post' <-> In x post /\ ~ In x pre /\ x <> s).
Proof.
  intros Hs. unfold py.unique.
  destruct (unique_from_app [] pre (s :: post)) as [seen' [Hmem Heq]].
  assert (Hnew : existsb (String.eqb s) seen' = false).
  { destruct (existsb (String.eqb s) seen') eqn:E; [|reflexivity].
    apply existsb_exists in E as [b [Hb Hab]]. apply String.eqb_eq in Hab. subst b.
    apply Hmem in Hb as [[]|Hb]. contradiction. }
  exists (py.unique_from [] pre), (py.unique_from (s :: seen') post).
  split; [rewrite Heq; simpl; now rewrite Hnew|]. split.
  - intros x. rewrite unique_from_spec. simpl. tauto.
  - intros x. rewrite unique_from_spec. simpl. rewrite Hmem. simpl.
    split; [intros [Hp Hn]; repeat split; auto; intros ->; tauto|].
    intros [Hp [Hn Hne]]. split; [exact Hp|]. intros [->|[[]|H]]; tauto.
Qed.

(** X12: [get_all_titles] lists no title twice and only titles of the
    table; for [limit >= 0] it lists the first [limit] entries of the
    list it gives without a cut; with [limit] at least the number of
    rows it lists every title of the table, each at its first
    appearance: the titles listed before a title are those that appear
    before its first appearance in the table, the titles listed after it
    those that appear only later. *)
Theorem X12_all_titles (g : recommender.Globals) (limit : Z) :
  let titles := py.dropna (map recommender.title (recommender.df g)) in
  List.NoDup (recommender.get_all_titles g limit) /\
  sublist (recommender.get_all_titles g limit) titles /\
  ((0 <= limit)%Z -> (Z.of_nat (length (recommender.get_all_titles g limit)) <= limit)%Z) /\
  ((Z.of_nat (length (recommender.df g)) <= limit)%Z ->
   forall s, In s (recommender.get_all_titles g limit) <-> In s titles) /\
  ((0 <= limit)%Z ->
   recommender.get_all_titles g limit
   = firstn (Z.to_nat limit)
            (recommender.get_all_titles g (Z.of_nat (length (recommender.df g))))) /\
  ((Z.of_nat (length (recommender.df g)) <= limit)%Z ->
   forall pre s post,
     titles = pre ++ s :: post -> ~ In s pre ->
     exists pre' post',
       recommender.get_all_titles g limit = pre' ++ s :: post' /\
       (forall x, In x pre' <-> In x pre) /\
       (forall x, In x post' <-> In x post /\ ~ In x pre /\ x <> s)).
Proof.
  intros titles.
  assert (Hshort : length (py.unique titles) <= length (recommender.df g)).
  { pose proof (unique_from_length [] titles) as H1.
    pose proof (dropna_length (map recommender.title (recommender.df g))) as H2.
    fold titles in H2. rewrite length_map in H2. unfold py.unique. lia. }
  assert (Hcut : forall k : nat,
             recommender.get_all_titles g (Z.of_nat k) = firstn k (py.unique titles)).
  { intros k. unfold recommender.get_all_titles. fold titles.
    change 0%Z with (Z.of_nat 0). now rewrite slice_nonneg, Nat.sub_0_r, skipn_O. }
  assert (Hfull : forall l : Z,
             (Z.of_nat (length (recommender.df g)) <= l)%Z ->
             recommender.get_all_titles g l = py.unique titles).
  { intros l Hl. rewrite <- (Z2Nat.id l) by lia. rewrite Hcut. apply firstn_all2. lia. }
  split; [apply get_all_titles_distinct|]. split; [|split; [|split; [|split]]].
  - unfold recommender.get_all_titles, py.slice, py.unique. fold titles.
    etransitivity; [apply sublist_take|].
    etransitivity; [apply sublist_drop|]. apply unique_from_sublist.
  - intros Hl. rewrite <- (Z2Nat.id limit) at 1 by assumption. rewrite Hcut.
    pose proof (firstn_le_length (Z.to_nat limit) (py.unique titles)). lia.
  - intros Hl s. rewrite (Hfull _ Hl).
    unfold py.unique. rewrite unique_from_spec. simpl. tauto.
  - intros Hl. rewrite (Hfull (Z.of_nat (length (recommender.df g)))) by lia.
    rewrite <- (Z2Nat.id limit) at 1 by assumption. apply Hcut.
  - intros Hl pre s post Hsplit Hs. rewrite (Hfull _ Hl), Hsplit.
    now apply unique_first_appearance.
Qed.

Lemma X12_all_titles_witness :
  main.all_titles sample.g_remake = ["Up"; "Alien"] /\
  (Z.of_nat (length (main.all_titles sample.g_remake)) <= 50000)%Z /\
  exists pre' post',
    main.all_titles sample.g_remake = pre' ++ "Alien" :: post' /\
    (forall x, In x pre' <-> In x ["Up"]) /\
    (forall x, In x post' <-> In x ["Up"] /\ ~ In x ["Up"] /\ x <> "Alien").
Proof.
  destruct (X12_all_titles sample.g_remake 50000) as [_ [_ [Hle [_ [_ Hfirst]]]]].
  split; [reflexivity|]. split; [apply Hle; lia|].
  apply (Hfirst ltac:(simpl; lia) ["Up"] "Alien" ["Up"] eq_refl).
  intros [H|[]]; discriminate.
Defined.

(** ** Posters and the image proxy *)

Section poster_facts.

Import recommender.

Variable TMDB_API_KEY : string.
Variable tmdb : nat -> string -> Reply.

Lemma image_base_allowed path :
  String.prefix "https://image.tmdb.org/" (TMDB_IMG_BASE +:+ path) = true.
Proof. reflexivity. Qed.

Lemma poster_of_shape r url :
  poster_of r = Some url -> String.prefix "https://image.tmdb.org/" url = true.
Proof.
  unfold poster_of. intros H.
  repeat match type of H with
         | context [match ?x with _ => _ end] => destruct x; try discriminate
         end.
  injection H as <-. apply image_base_allowed.
Qed.

(** One call of [_fetch_poster_path]: entries stay, requests are added
    at the end, and a request is sent only for a title without entry,
    which then has one. *)
Lemma fetch_poster_path_step title p :
  let p' := snd (_fetch_poster_path TMDB_API_KEY tmdb title p) in
  (forall t u, _poster_cache p !! t = Some u -> _poster_cache p' !! t = Some u) /\
  (sent p' = sent p \/
   (sent p' = sent p ++ [title] /\ _poster_cache p !! title = None /\
    _poster_cache p' !! title <> None)).
Proof.
  unfold _fetch_poster_path.
  destruct (_poster_cache p !! title) as [url|] eqn:Hc; simpl; [auto|].
  destruct (String.eqb TMDB_API_KEY EmptyString); simpl; [auto|].
  destruct (poster_of _); simpl; (split;
    [ intros t u Ht; destruct (decide (title = t)) as [->|Hne];
        [congruence | now rewrite lookup_insert_ne]
    | right; rewrite lookup_insert_eq; auto ]).
Qed.

End poster_facts.

(** X13: [_fetch_poster_path] answers from the cache without a request
    when the title has an entry, whatever the entry; without an entry and
    without a key it answers the empty string and records nothing; without
    an entry and with a key it sends one request for the title, stores its
    answer under the title, and the answer is empty or an image URL. *)
Theorem X13_fetch_poster_path_cases (TMDB_API_KEY : string)
    (tmdb : nat -> string -> recommender.Reply) (title : string) (p : recommender.Posters) :
  let r := recommender._fetch_poster_path TMDB_API_KEY tmdb title p in
  (forall url, recommender._poster_cache p !! title = Some url -> r = (url, p)) /\
  (recommender._poster_cache p !! title = None -> TMDB_API_KEY = EmptyString ->
   r = (EmptyString, p)) /\
  (recommender._poster_cache p !! title = None -> TMDB_API_KEY <> EmptyString ->
   recommender.sent (snd r) = recommender.sent p ++ [title] /\
   recommender._poster_cache (snd r) = <[title := fst r]> (recommender._poster_cache p) /\
   (fst r = EmptyString \/ String.prefix "https://image.tmdb.org/" (fst r) = true)).
Proof.
  unfold recommender._fetch_poster_path. split; [|split].
  - intros url H. now rewrite H.
  - intros H ->. now rewrite H.
  - intros H Hkey. rewrite H.
    destruct (String.eqb_spec TMDB_API_KEY EmptyString) as [?|_]; [contradiction|].
    unfold recommender.requests_get. simpl.
    destruct (recommender.poster_of _) as [url|] eqn:Hp; simpl.
    + split; [reflexivity|]. split; [reflexivity|]. right.
      now apply poster_of_shape in Hp.
    + auto.
Qed.

Lemma X13_fetch_poster_path_cases_witness :
  let r := recommender._fetch_poster_path "key" sample.tmdb "Alien" sample.no_posters in
  recommender.sent (snd r) = ["Alien"] /\
  recommender._poster_cache (snd r) = <["Alien" := fst r]> ∅ /\
  (fst r = EmptyString \/ String.prefix "https://image.tmdb.org/" (fst r) = true).
Proof.
  destruct (X13_fetch_poster_path_cases "key" sample.tmdb "Alien" sample.no_posters)
    as [_ [_ H]].
  apply H; [reflexivity | discriminate].
Defined.

(** X14: two calls of [_fetch_poster_path] in a row for one title send at
    most one request between them and give the same answer, with or
    without a key. *)
Theorem X14_fetch_poster_path_twice (TMDB_API_KEY : string)
    (tmdb : nat -> string -> recommender.Reply) (title : string) (p : recommender.Posters) :
  let r1 := recommender._fetch_poster_path TMDB_API_KEY tmdb title p in
  let r2 := recommender._fetch_poster_path TMDB_API_KEY tmdb title (snd r1) in
  length (recommender.sent (snd r2)) <= S (length (recommender.sent p)) /\
  fst r2 = fst r1.
Proof.
  destruct (String.eqb_spec TMDB_API_KEY EmptyString) as [->|Hkey].
  - intros r1 r2. subst r2 r1. unfold recommender._fetch_poster_path.
    destruct (recommender._poster_cache p !! title) as [url|] eqn:Hc; simpl;
      rewrite Hc; simpl; split; (lia || reflexivity).
  - now apply fetch_poster_path_twice.
Qed.

(** X15: over any sequence of calls of [_fetch_poster_path], entries of
    the cache are never changed or removed, requests already sent stay
    and new ones are only for titles asked, and when no title was
    requested twice and every requested title has an entry, that remains
    so: the provider is asked at most once per title. *)
Theorem X15_one_request_per_title (TMDB_API_KEY : string)
    (tmdb : nat -> string -> recommender.Reply) (titles : list string)
    (p : recommender.Posters) :
  let p' := fetch_all TMDB_API_KEY tmdb titles p in
  (forall t u, recommender._poster_cache p !! t = Some u ->
               recommender._poster_cache p' !! t = Some u) /\
  (exists more, recommender.sent p' = recommender.sent p ++ more /\
                forall t, In t more -> In t titles) /\
  (requests_cached p -> List.NoDup (recommender.sent p) ->
   requests_cached p' /\ List.NoDup (recommender.sent p')).
Proof.
  revert p. induction titles as [|title titles IH]; intros p; simpl.
  - split; [auto|]. split; [|auto].
    exists []. split; [now rewrite app_nil_r | intros t []].
  - destruct (fetch_poster_path_step TMDB_API_KEY tmdb title p) as [Hkeep Hsent].
    set (p1 := snd (recommender._fetch_poster_path TMDB_API_KEY tmdb title p)) in *.
    destruct (IH p1) as [IHkeep [[more [IHsent IHin]] IHinv]].
    split; [auto|]. split.
    + destruct Hsent as [Hs|[Hs _]].
      * exists more. rewrite IHsent, Hs. split; [reflexivity | auto].
      * exists (title :: more). rewrite IHsent, Hs, <- app_assoc.
        split; [reflexivity|]. intros t [<-|Ht]; [now left | right; auto].
    + intros Hcached Hnodup. apply IHinv.
      * intros t Ht. destruct Hsent as [Hs|[Hs [_ Hnew]]]; rewrite Hs in Ht.
        -- specialize (Hcached t Ht).
           destruct (recommender._poster_cache p !! t) as [u|] eqn:E; [|congruence].
           rewrite (Hkeep t u E). discriminate.
        -- apply in_app_or in Ht as [Ht|[<-|[]]]; [|exact Hnew].
           specialize (Hcached t Ht).
           destruct (recommender._poster_cache p !! t) as [u|] eqn:E; [|congruence].
           rewrite (Hkeep t u E). discriminate.
      * destruct Hsent as [Hs|[Hs [Hmiss _]]]; rewrite Hs; [assumption|].
        apply (Permutation_NoDup (Permutation_cons_append _ title)).
        constructor; [|assumption].
        intros Ht. now apply (Hcached title Ht).
Qed.

Lemma X15_one_request_per_title_witness :
  let p' := fetch_all "key" sample.tmdb ["Alien"; "Up"; "Alien"; "Up"] sample.no_posters in
  recommender.sent p' = ["Alien"; "Up"] /\
  requests_cached p' /\ List.NoDup (recommender.sent p').
Proof.
  destruct (X15_one_request_per_title "key" sample.tmdb ["Alien"; "Up"; "Alien"; "Up"]
              sample.no_posters) as [_ [_ H]].
  split; [reflexivity|].
  apply H; [intros t [] | constructor].
Defined.

(** X16: [get_poster_url] never touches the cache; without a key it
    answers the empty string and sends nothing, with a key it sends
    exactly one request for the title; its answer is the empty string or
    an image URL, and such a URL is one the image proxy agrees to
    fetch. *)
Theorem X16_get_poster_url (TMDB_API_KEY : string)
    (tmdb : nat -> string -> recommender.Reply) (title : string) (p : recommender.Posters) :
  let r := recommender.get_poster_url TMDB_API_KEY tmdb title p in
  recommender._poster_cache (snd r) = recommender._poster_cache p /\
  (TMDB_API_KEY = EmptyString -> r = (EmptyString, p)) /\
  (TMDB_API_KEY <> EmptyString ->
   recommender.sent (snd r) = recommender.sent p ++ [title]) /\
  (fst r = EmptyString \/ String.prefix "https://image.tmdb.org/" (fst r) = true) /\
  (fst r <> EmptyString ->
   forall http_get, snd (main.img_proxy http_get (fst r)) = [fst r] /\
                    fst (main.img_proxy http_get (fst r)) <> Raises (HTTPException 400)).
Proof.
  intros r.
  assert (Hshape : fst r = EmptyString \/
                   String.prefix "https://image.tmdb.org/" (fst r) = true).
  { subst r. unfold recommender.get_poster_url.
    destruct (String.eqb TMDB_API_KEY EmptyString); [now left|].
    unfold recommender.requests_get. simpl.
    destruct (recommender.poster_of _) as [url|] eqn:Hp; simpl; [right | now left].
    now apply poster_of_shape in Hp. }
  split; [|split; [|split; [|split]]].
  - subst r. unfold recommender.get_poster_url.
    destruct (String.eqb TMDB_API_KEY EmptyString); [reflexivity|].
    unfold recommender.requests_get. simpl. now destruct (recommender.poster_of _).
  - intros ->. reflexivity.
  - intros Hkey. now apply get_poster_url_sends.
  - exact Hshape.
  - intros Hne http_get. destruct Hshape as [?|Hok]; [contradiction|].
    unfold main.img_proxy. rewrite Hok. simpl. split; [reflexivity|].
    destruct (http_get (fst r)) as [| |status body ctype]; try discriminate.
    destruct (status =? 200)%Z; discriminate.
Qed.

Lemma X16_get_poster_url_witness :
  let r := recommender.get_poster_url "key" sample.tmdb "Alien" sample.no_posters in
  recommender.sent (snd r) = ["Alien"] /\
  snd (main.img_proxy sample.http_get (fst r)) = [fst r] /\
  fst (main.img_proxy sample.http_get (fst r)) <> Raises (HTTPException 400).
Proof.
  destruct (X16_get_poster_url "key" sample.tmdb "Alien" sample.no_posters)
    as [_ [_ [Hsent [_ Hproxy]]]].
  split; [apply Hsent; discriminate | apply Hproxy; discriminate].
Defined.

(** X17: [img_proxy] answers 400 without fetching when the URL does not
    start with the image host; otherwise it fetches that URL once and
    answers with the body, the provider's content type (image/jpeg when
    there is none) and a one-day cache directive on status 200, with 504
    on a timeout, and with 502 on any other failure, a status other than
    200 included: the provider's own status is never passed on. *)
Theorem X17_img_proxy_outcomes (http_get : string -> main.Fetched) (url : string) :
  let r := main.img_proxy http_get url in
  (String.prefix "https://image.tmdb.org/" url = false ->
   r = (Raises (HTTPException 400), [])) /\
  (String.prefix "https://image.tmdb.org/" url = true ->
   snd r = [url] /\
   (http_get url = main.TimedOut -> fst r = Raises (HTTPException 504)) /\
   (http_get url = main.Failed -> fst r = Raises (HTTPException 502)) /\
   (forall status body ctype,
       http_get url = main.Got status body ctype ->
       (status = 200%Z ->
        fst r = Returns {| main.content := body;
                           main.media_type := recommender.fillna "image/jpeg" ctype;
                           main.cache_control := "public, max-age=86400" |}) /\
       (status <> 200%Z -> fst r = Raises (HTTPException 502)))) /\
  (forall e, fst r = Raises e ->
             e = HTTPException 400 \/ e = HTTPException 502 \/ e = HTTPException 504).
Proof.
  intros r. subst r. unfold main.img_proxy.
  destruct (String.prefix "https://image.tmdb.org/" url) eqn:Hp; simpl.
  - split; [discriminate|]. split.
    + intros _. split; [reflexivity|].
      split; [intros H; now rewrite H|]. split; [intros H; now rewrite H|].
      intros status body ctype H. rewrite H. split.
      * intros ->. reflexivity.
      * intros Hne. destruct (Z.eqb_spec status 200); [contradiction | reflexivity].
    + intros e. destruct (http_get url) as [| |status body ctype]; simpl.
      * intros [= <-]. auto.
      * intros [= <-]. auto.
      * destruct (status =? 200)%Z; [discriminate|]. intros [= <-]. auto.
  - split; [reflexivity|]. split; [discriminate|]. intros e [= <-]. auto.
Qed.

Lemma X17_img_proxy_outcomes_witness :
  main.img_proxy sample.http_get "http://example.org/x.jpg" = (Raises (HTTPException 400), []) /\
  fst (main.img_proxy sample.http_get "https://image.tmdb.org/t/p/w500/none.jpg")
  = Raises (HTTPException 502).
Proof.
  destruct (X17_img_proxy_outcomes sample.http_get "http://example.org/x.jpg") as [H400 _].
  destruct (X17_img_proxy_outcomes sample.http_get "https://image.tmdb.org/t/p/w500/none.jpg")
    as [_ [Hfetch _]].
  split; [apply H400; reflexivity|].
  destruct (Hfetch eq_refl) as [_ [_ [_ Hgot]]].
  apply (Hgot 404%Z EmptyString None eq_refl). discriminate.
Defined.

(** ** The user table, registration and login *)

Section accounts.

Import database.

Lemma find_app {A} (f : A -> bool) l l' :
  find f (l ++ l') = match find f l with
                     | Some a => Some a
                     | None => find f l'
                     end.
Proof.
  induction l as [|a l IH]; simpl; [reflexivity|].
  destruct (f a); [reflexivity | exact IH].
Qed.

Lemma conflict_spec u e (rows : list User) :
  existsb (fun row => String.eqb (username row) u || String.eqb (email row) e) rows = true
  <-> exists row, In row rows /\ (username row = u \/ email row = e).
Proof.
  rewrite existsb_exists. split; intros [row [Hin H]]; exists row; (split; [exact Hin|]).
  - apply orb_prop in H as [H|H]; apply String.eqb_eq in H; auto.
  - apply orb_true_iff. destruct H as [H|H]; [left | right]; now apply String.eqb_eq.
Qed.

Lemma no_conflict_fresh u e (rows : list User) :
  existsb (fun row => String.eqb (username row) u || String.eqb (email row) e) rows = false ->
  ~ In u (map username rows) /\ ~ In e (map email rows).
Proof.
  intros H. split; intros [row [Heq Hin]]%in_map_iff;
    (assert (Ht : existsb (fun row => String.eqb (username row) u || String.eqb (email row) e)
                          rows = true);
     [apply conflict_spec; exists row; auto | congruence]).
Qed.

Lemma not_found_no_conflict u e (rows : list User) :
  find (fun row => String.eqb (username row) u) rows = None ->
  find (fun row => String.eqb (email row) e) rows = None ->
  existsb (fun row => String.eqb (username row) u || String.eqb (email row) e) rows = false.
Proof.
  intros Hu He.
  destruct (existsb _ rows) eqn:E; [|reflexivity].
  apply conflict_spec in E as [row [Hin [H|H]]].
  - apply (find_none _ _ Hu) in Hin. rewrite H, String.eqb_refl in Hin. discriminate.
  - apply (find_none _ _ He) in Hin. rewrite H, String.eqb_refl in Hin. discriminate.
Qed.

Lemma NoDup_snoc {A} (l : list A) a : List.NoDup l -> ~ In a l -> List.NoDup (l ++ [a]).
Proof.
  intros Hl Ha. apply (Permutation_NoDup (Permutation_cons_append l a)).
  now constructor.
Qed.

Lemma create_user_unique u e h now db :
  unique_users db -> unique_users (snd (create_user u e h now db)).
Proof.
  intros [Hu He]. unfold create_user. simpl.
  destruct (existsb _ (users db)) eqn:E; simpl; [now split|].
  apply no_conflict_fresh in E as [Hfu Hfe].
  unfold unique_users. simpl. rewrite !map_app. simpl.
  split; now apply NoDup_snoc.
Qed.

Variable hash_password : string -> string.
Variable utcnow : string.

(** What a successful registration leaves behind. *)
Lemma register_returns user db msg :
  fst (main.register hash_password utcnow user db) = Returns msg ->
  find (fun row => String.eqb (username row) (models.username user)) (users db) = None /\
  users (snd (main.register hash_password utcnow user db))
  = users db ++ [ {| username := models.username user; email := models.email user;
                     hashed_password := hash_password (models.password user);
                     created_at := utcnow |} ].
Proof.
  unfold main.register.
  destruct (_ <? 3); [discriminate|]. destruct (_ <? 6); [discriminate|].
  unfold get_user_by_username, get_user_by_email, create_user. simpl.
  destruct (find (fun row => String.eqb (username row) _) (users db)) eqn:Eu; simpl;
    [discriminate|].
  destruct (find (fun row => String.eqb (email row) _) (users db)) eqn:Ee; simpl;
    [discriminate|].
  destruct (existsb _ (users db)); simpl; [discriminate|]. auto.
Qed.

End accounts.

(** X18: [create_user] returns [False] exactly when the username or the
    email is already in the table, and then leaves the table as it was;
    otherwise it appends one row with the values given. Either way it
    executes one INSERT and keeps usernames and emails unique. *)
Theorem X18_create_user (u e h now : string) (db : database.DB) :
  let r := database.create_user u e h now db in
  (fst r = false <-> taken u e db) /\
  (fst r = false -> database.users (snd r) = database.users db) /\
  (fst r = true ->
   database.users (snd r)
   = database.users db ++ [ {| database.username := u; database.email := e;
                               database.hashed_password := h;
                               database.created_at := now |} ]) /\
  database.executed (snd r) = database.executed db ++ [database.Insert u e] /\
  (unique_users db -> unique_users (snd r)).
Proof.
  intros r. split; [|split; [|split; [|split]]].
  - subst r. unfold database.create_user, taken. simpl.
    rewrite <- conflict_spec.
    destruct (existsb _ (database.users db)); simpl; split; congruence.
  - subst r. unfold database.create_user. simpl.
    now destruct (existsb _ (database.users db)).
  - subst r. unfold database.create_user. simpl.
    now destruct (existsb _ (database.users db)).
  - subst r. unfold database.create_user. simpl.
    now destruct (existsb _ (database.users db)).
  - apply create_user_unique.
Qed.

Lemma X18_create_user_witness :
  let r := database.create_user "alice" "other@example.org" "h" "now" sample.db in
  database.users (snd r) = database.users sample.db /\
  unique_users (snd r).
Proof.
  destruct (X18_create_user "alice" "other@example.org" "h" "now" sample.db)
    as [_ [Hsame [_ [_ Huniq]]]].
  split; [apply Hsame; reflexivity|].
  apply Huniq. split; repeat constructor; simpl; tauto.
Defined.

(** X19: after [create_user] has returned [True], looking the user up by
    the username or by the email returns the row just stored, and lookups
    of any other username or email answer as before. *)
Theorem X19_create_then_lookup (u e h now : string) (db : database.DB) :
  fst (database.create_user u e h now db) = true ->
  let db' := snd (database.create_user u e h now db) in
  let row := {| database.username := u; database.email := e;
                database.hashed_password := h; database.created_at := now |} in
  fst (database.get_user_by_username u db') = Some row /\
  fst (database.get_user_by_email e db') = Some row /\
  (forall u', u' <> u ->
              fst (database.get_user_by_username u' db')
              = fst (database.get_user_by_username u' db)) /\
  (forall e', e' <> e ->
              fst (database.get_user_by_email e' db')
              = fst (database.get_user_by_email e' db)).
Proof.
  unfold database.create_user. simpl.
  destruct (existsb _ (database.users db)) eqn:E; simpl; [discriminate|]. intros _.
  apply no_conflict_fresh in E as [Hu He].
  rewrite !find_app. simpl. rewrite !String.eqb_refl.
  split; [|split; [|split]].
  - destruct (find _ (database.users db)) as [row|] eqn:F; [|reflexivity].
    apply find_some in F as [Hin Heq]. apply String.eqb_eq in Heq.
    exfalso. apply Hu. apply in_map_iff. now exists row.
  - destruct (find _ (database.users db)) as [row|] eqn:F; [|reflexivity].
    apply find_some in F as [Hin Heq]. apply String.eqb_eq in Heq.
    exfalso. apply He. apply in_map_iff. now exists row.
  - intros u' Hne. rewrite find_app. simpl.
    destruct (String.eqb_spec u u'); [congruence|].
    now destruct (find _ (database.users db)).
  - intros e' Hne. rewrite find_app. simpl.
    destruct (String.eqb_spec e e'); [congruence|].
    now destruct (find _ (database.users db)).
Qed.

Lemma X19_create_then_lookup_witness :
  let db' := snd (database.create_user "bob" "bob@example.org" "h" "now" sample.db) in
  fst (database.get_user_by_username "bob" db')
  = Some {| database.username := "bob"; database.email := "bob@example.org";
            database.hashed_password := "h"; database.created_at := "now" |} /\
  fst (database.get_user_by_username "alice" db') = Some sample.alice.
Proof.
  destruct (X19_create_then_lookup "bob" "bob@example.org" "h" "now" sample.db eq_refl)
    as [Hbob [_ [Hother _]]].
  split; [exact Hbob|].
  rewrite (Hother "alice"); [reflexivity | discriminate].
Defined.

(** X20: run on its own, [register] never answers 500: the two lookups
    made before the INSERT rule out the conflict that would make
    [create_user] fail. Its outcome is the success message, 400 or 409. *)
Theorem X20_register_never_500 (hash_password : string -> string) (utcnow : string)
    (user : models.UserRegister) (db : database.DB) :
  let out := fst (main.register hash_password utcnow user db) in
  out = Returns "Account created successfully! Please log in." \/
  out = Raises (HTTPException 400) \/
  out = Raises (HTTPException 409).
Proof.
  unfold main.register.
  destruct (_ <? 3); [auto|]. destruct (_ <? 6); [auto|].
  unfold database.get_user_by_username, database.get_user_by_email, database.create_user.
  simpl.
  destruct (find (fun row => String.eqb (database.username row) _) (database.users db))
    eqn:Eu; [auto|].
  destruct (find (fun row => String.eqb (database.email row) _) (database.users db))
    eqn:Ee; [auto|].
  rewrite (not_found_no_conflict _ _ _ Eu Ee). auto.
Qed.

(** X21: a request with a username of at least 3 characters, a password
    of at least 6, and a username and an email that are not in the table
    succeeds: one row is appended, holding the hash of the password and
    the time of the call, after one lookup by username, one by email and
    one INSERT. *)
Theorem X21_register_success (hash_password : string -> string) (utcnow : string)
    (user : models.UserRegister) (db : database.DB) :
  3 <= String.length (models.username user) ->
  6 <= String.length (models.password user) ->
  ~ taken (models.username user) (models.email user) db ->
  main.register hash_password utcnow user db
  = (Returns "Account created successfully! Please log in.",
     {| database.users :=
          database.users db
          ++ [ {| database.username := models.username user;
                  database.email := models.email user;
                  database.hashed_password := hash_password (models.password user);
                  database.created_at := utcnow |} ];
        database.executed :=
          database.executed db
          ++ [ database.SelectByUsername (models.username user);
               database.SelectByEmail (models.email user);
               database.Insert (models.username user) (models.email user) ] |}).
Proof.
  intros Hu Hp Hfree. unfold main.register.
  destruct (Nat.ltb_spec (String.length (models.username user)) 3); [lia|].
  destruct (Nat.ltb_spec (String.length (models.password user)) 6); [lia|].
  assert (Hno : existsb (fun row => String.eqb (database.username row) (models.username user)
                                    || String.eqb (database.email row) (models.email user))
                        (database.users db) = false).
  { destruct (existsb _ (database.users db)) eqn:E; [|reflexivity].
    exfalso. apply Hfree. now apply conflict_spec. }
  apply no_conflict_fresh in Hno as Hfresh. destruct Hfresh as [Hfu Hfe].
  unfold database.get_user_by_username, database.get_user_by_email, database.create_user.
  simpl.
  destruct (find (fun row => String.eqb (database.username row) _) (database.users db))
    as [row|] eqn:Eu.
  { exfalso. apply find_some in Eu as [Hin Heq]. apply String.eqb_eq in Heq.
    apply Hfu, in_map_iff. now exists row. }
  destruct (find (fun row => String.eqb (database.email row) _) (database.users db))
    as [row|] eqn:Ee.
  { exfalso. apply find_some in Ee as [Hin Heq]. apply String.eqb_eq in Heq.
    apply Hfe, in_map_iff. now exists row. }
  rewrite Hno. simpl. rewrite <- !app_assoc. reflexivity.
Qed.

Lemma X21_register_success_witness :
  fst (main.register sample.hash_password "2024-01-02T00:00:00" sample.bob sample.db)
  = Returns "Account created successfully! Please log in." /\
  length (database.users
            (snd (main.register sample.hash_password "2024-01-02T00:00:00"
                    sample.bob sample.db))) = 2.
Proof.
  rewrite (X21_register_success sample.hash_password "2024-01-02T00:00:00"
             sample.bob sample.db).
  - split; reflexivity.
  - simpl; lia.
  - simpl; lia.
  - intros [row [[<-|[]] [H|H]]]; discriminate.
Defined.

(** X22: once a registration has succeeded, any later request that
    passes the length checks and repeats its username or its email is
    answered 409 and leaves the table as the first registration left
    it. *)
Theorem X22_second_registration_conflicts (hash_password hash_password' : string -> string)
    (utcnow utcnow' : string) (user user' : models.UserRegister) (db : database.DB)
    (msg : string) :
  fst (main.register hash_password utcnow user db) = Returns msg ->
  3 <= String.length (models.username user') ->
  6 <= String.length (models.password user') ->
  models.username user' = models.username user \/ models.email user' = models.email user ->
  let db' := snd (main.register hash_password utcnow user db) in
  fst (main.register hash_password' utcnow' user' db') = Raises (HTTPException 409) /\
  database.users (snd (main.register hash_password' utcnow' user' db')) = database.users db'.
Proof.
  intros Hok Hu Hp Hdup db'.
  destruct (register_returns hash_password utcnow user db msg Hok) as [_ Hrows].
  fold db' in Hrows.
  assert (H409 : fst (main.register hash_password' utcnow' user' db')
                 = Raises (HTTPException 409)).
  { eapply register_conflict; [exact Hu | exact Hp | |].
    - rewrite Hrows. apply in_or_app. right. now left.
    - simpl. destruct Hdup as [H|H]; [left | right]; now rewrite H. }
  split; [exact H409|].
  destruct (register_users hash_password' utcnow' user' db') as [H|[m H]]; [exact H|].
  congruence.
Qed.

Lemma X22_second_registration_conflicts_witness :
  let db' := snd (main.register sample.hash_password "2024-01-02T00:00:00"
                    sample.bob sample.db) in
  fst (main.register sample.hash_password "2024-01-03T00:00:00" sample.bob db')
  = Raises (HTTPException 409) /\
  database.users (snd (main.register sample.hash_password "2024-01-03T00:00:00"
                         sample.bob db'))
  = database.users db'.
Proof.
  apply (X22_second_registration_conflicts sample.hash_password sample.hash_password
           "2024-01-02T00:00:00" "2024-01-03T00:00:00" sample.bob sample.bob sample.db
           "Account created successfully! Please log in.");
    [reflexivity | simpl; lia | simpl; lia | now left].
Defined.

(** X23: [register] keeps usernames and emails unique: if no two rows of
    the table share a username or an email before the call, none do
    after it. *)
Theorem X23_register_keeps_users_unique (hash_password : string -> string) (utcnow : string)
    (user : models.UserRegister) (db : database.DB) :
  unique_users db ->
  unique_users (snd (main.register hash_password utcnow user db)).
Proof.
  intros Huniq. unfold main.register.
  destruct (_ <? 3); [exact Huniq|]. destruct (_ <? 6); [exact Huniq|].
  unfold database.get_user_by_username, database.get_user_by_email. simpl.
  destruct (find (fun row => String.eqb (database.username row) _) (database.users db));
    [exact Huniq|].
  destruct (find (fun row => String.eqb (database.email row) _) (database.users db));
    [exact Huniq|].
  pose proof (create_user_unique (models.username user) (models.email user)
                (hash_password (models.password user)) utcnow
                (database.execute (database.SelectByEmail (models.email user))
                   (database.execute (database.SelectByUsername (models.username user)) db))
                Huniq) as H.
  destruct (database.create_user _ _ _ _ _) as [[|] db']; exact H.
Qed.

Lemma X23_register_keeps_users_unique_witness :
  unique_users (snd (main.register sample.hash_password "2024-01-02T00:00:00"
                       sample.bob sample.db)).
Proof.
  apply (X23_register_keeps_users_unique sample.hash_password "2024-01-02T00:00:00"
           sample.bob sample.db).
  split; repeat constructor; simpl; tauto.
Defined.

(** X24: [login] reads the table once and never changes it; it answers
    401 for a username that is not stored, without checking a password;
    its errors are 401 and the [ValueError] that [bcrypt.checkpw] raises,
    the latter exactly when the stored hash of the row found cannot be
    checked; a token is returned only when the stored hash of a row with
    that username verified, and it names that username with type
    "bearer". *)
Theorem X24_login (verify_password : string -> string -> option bool)
    (create_access_token : string -> string) (user : models.UserLogin) (db : database.DB) :
  let r := main.login verify_password create_access_token user db in
  let found := fst (database.get_user_by_username (models.login_username user) db) in
  database.users (snd r) = database.users db /\
  database.executed (snd r)
  = database.executed db ++ [database.SelectByUsername (models.login_username user)] /\
  ((forall row, In row (database.users db) ->
                database.username row <> models.login_username user) ->
   fst r = Raises (HTTPException 401)) /\
  (forall e, fst r = Raises e -> e = HTTPException 401 \/ e = ValueError) /\
  (fst r = Raises ValueError <->
   exists row, found = Some row /\
               verify_password (models.login_password user)
                               (database.hashed_password row) = None) /\
  (fst r = Raises (HTTPException 401) <->
   found = None \/
   exists row, found = Some row /\
               verify_password (models.login_password user)
                               (database.hashed_password row) = Some false) /\
  (forall t, fst r = Returns t ->
             models.token_type t = "bearer" /\
             models.token_username t = models.login_username user /\
             exists row, In row (database.users db) /\
                         database.username row = models.login_username user /\
                         verify_password (models.login_password user)
                                         (database.hashed_password row) = Some true /\
                         models.access_token t = create_access_token (database.username row)).
Proof.
  unfold main.login, database.get_user_by_username. simpl.
  destruct (find _ (database.users db)) as [row|] eqn:Hf; simpl.
  - apply find_some in Hf as [Hin Heq]. apply String.eqb_eq in Heq.
    destruct (verify_password _ _) as [[|]|] eqn:Hv; simpl;
      (split; [reflexivity|]); (split; [reflexivity|]).
    + split; [intros Hnone; exfalso; exact (Hnone row Hin Heq)|].
      split; [discriminate|]. split; [|split].
      * split; [discriminate|]. intros [row' [[= <-] H]]. congruence.
      * split; [discriminate|]. intros [H|[row' [[= <-] H]]]; congruence.
      * intros t [= <-]. simpl. split; [reflexivity|]. split; [exact Heq|].
        exists row. auto.
    + split; [reflexivity|]. split; [intros e [= <-]; now left|]. split; [|split].
      * split; [discriminate|]. intros [row' [[= <-] H]]. congruence.
      * split; [|reflexivity]. intros _. right. now exists row.
      * discriminate.
    + split; [intros Hnone; exfalso; exact (Hnone row Hin Heq)|].
      split; [intros e [= <-]; now right|]. split; [|split].
      * split; [|reflexivity]. intros _. now exists row.
      * split; [discriminate|]. intros [H|[row' [[= <-] H]]]; congruence.
      * discriminate.
  - split; [reflexivity|]. split; [reflexivity|]. split; [reflexivity|].
    split; [intros e [= <-]; now left|]. split; [|split].
    + split; [discriminate|]. intros [row' [H _]]. discriminate.
    + split; [|reflexivity]. intros _. now left.
    + discriminate.
Qed.

Lemma X24_login_witness :
  fst (main.login (auth.verify_password sample.sha256_hex sample.bcrypt_checkpw)
         (fun sub => sub)
         {| models.login_username := "carol"; models.login_password := "secret1" |}
         sample.db)
  = Raises (HTTPException 401) /\
  fst (main.login (auth.verify_password sample.sha256_hex sample.bcrypt_checkpw)
         (fun sub => sub)
         {| models.login_username := "dave"; models.login_password := "secret1" |}
         sample.db_legacy)
  = Raises ValueError.
Proof.
  destruct (X24_login (auth.verify_password sample.sha256_hex sample.bcrypt_checkpw)
              (fun sub => sub)
              {| models.login_username := "carol"; models.login_password := "secret1" |}
              sample.db) as [_ [_ [H401 _]]].
  destruct (X24_login (auth.verify_password sample.sha256_hex sample.bcrypt_checkpw)
              (fun sub => sub)
              {| models.login_username := "dave"; models.login_password := "secret1" |}
              sample.db_legacy) as [_ [_ [_ [_ [Hval _]]]]].
  split.
  - apply H401. intros row [<-|[]]. discriminate.
  - apply Hval. eexists. split; reflexivity.
Defined.

(** X25: when [bcrypt.checkpw] accepts what [bcrypt.hashpw] produced
    with the salt drawn, a user who has just registered can log in with
    the same username and password: [hash_password] and
    [verify_password] prepare the password the same way, and [login]
    returns a bearer token naming the username. *)
Theorem X25_register_then_login (sha256_hex : string -> string)
    (bcrypt_hashpw : string -> string -> string)
    (bcrypt_checkpw : string -> string -> option bool)
    (salt utcnow : string) (create_access_token : string -> string)
    (user : models.UserRegister) (db : database.DB) (msg : string) :
  (forall pw, bcrypt_checkpw pw (bcrypt_hashpw pw salt) = Some true) ->
  fst (main.register (auth.hash_password sha256_hex bcrypt_hashpw salt) utcnow user db)
  = Returns msg ->
  let db' := snd (main.register (auth.hash_password sha256_hex bcrypt_hashpw salt)
                    utcnow user db) in
  fst (main.login (auth.verify_password sha256_hex bcrypt_checkpw) create_access_token
         {| models.login_username := models.username user;
            models.login_password := models.password user |} db')
  = Returns {| models.access_token := create_access_token (models.username user);
               models.token_type := "bearer";
               models.token_username := models.username user |}.
Proof.
  intros Hbcrypt Hok db'.
  destruct (register_returns _ utcnow user db msg Hok) as [Hnone Hrows]. fold db' in Hrows.
  unfold main.login, database.get_user_by_username. simpl.
  rewrite Hrows, find_app, Hnone. simpl. rewrite String.eqb_refl. simpl.
  unfold auth.verify_password, auth.hash_password, auth._prepare_password.
  now rewrite Hbcrypt.
Qed.

Lemma X25_register_then_login_witness :
  let db' := snd (main.register
                    (auth.hash_password sample.sha256_hex sample.bcrypt_hashpw "$2b$12$")
                    "2024-01-02T00:00:00" sample.bob sample.db) in
  fst (main.login (auth.verify_password sample.sha256_hex sample.bcrypt_checkpw)
         (fun sub => "token-for-" +:+ sub)
         {| models.login_username := "bob"; models.login_password := "secret1" |} db')
  = Returns {| models.access_token := "token-for-bob";
               models.token_type := "bearer";
               models.token_username := "bob" |}.
Proof.
  apply (X25_register_then_login sample.sha256_hex sample.bcrypt_hashpw
           sample.bcrypt_checkpw "$2b$12$" "2024-01-02T00:00:00"
           (fun sub => "token-for-" +:+ sub) sample.bob sample.db
           "Account created successfully! Please log in.").
  - intros pw. unfold sample.bcrypt_checkpw, sample.bcrypt_hashpw.
    change (String.prefix "$2b$" ("$2b$12$" +:+ pw)) with true. cbv iota.
    now rewrite String.eqb_refl.
  - reflexivity.
Defined.

(** ** Loading and the remaining routes *)

(** X26: [load_model] builds one vector per row of the table, leaves no
    title missing, replaces a missing popularity or rating by 0, and
    yields consistent globals when every position of the pickled index
    is a row of the pickled table. *)
Theorem X26_load_model (df_pkl : list recommender.RawRow)
    (indices_pkl : list (option string * nat)) (transform : string -> list Q) :
  let g := recommender.load_model df_pkl indices_pkl transform in
  length (recommender.df g) = length df_pkl /\
  length (recommender.tfidf_matrix g) = length df_pkl /\
  (forall r, In r (recommender.df g) -> recommender.title r <> None) /\
  (forall i raw, nth_error df_pkl i = Some raw ->
     exists r, nth_error (recommender.df g) i = Some r /\
               nth_error (recommender.tfidf_matrix g) i
               = Some (transform (recommender.fillna EmptyString (recommender.raw_Tags raw))) /\
               (recommender.raw_popularity raw = None -> recommender.popularity r = 0%Q) /\
               (recommender.raw_vote_average raw = None -> recommender.vote_average r = 0%Q) /\
               (forall t, recommender.raw_title raw = Some t ->
                          recommender.title r = Some t)) /\
  (Forall (fun e => snd e < length df_pkl) indices_pkl -> consistent g).
Proof.
  simpl. rewrite !length_map. split; [reflexivity|]. split; [reflexivity|].
  split; [|split].
  - intros r [raw [<- _]]%in_map_iff. discriminate.
  - intros i raw Hraw. exists (recommender.clean raw).
    rewrite !nth_error_map, Hraw. simpl. split; [reflexivity|]. split; [reflexivity|].
    split; [|split]; intros; subst; simpl;
      match goal with H : _ = _ |- _ => now rewrite H end.
  - apply load_model_consistent.
Qed.

Lemma X26_load_model_witness :
  consistent (recommender.load_model sample.df_pkl sample.indices_pkl sample.transform) /\
  exists r, nth_error (recommender.df sample.g_untitled) 1 = Some r /\
            recommender.title r = Some EmptyString.
Proof.
  destruct (X26_load_model sample.df_pkl sample.indices_pkl sample.transform)
    as [_ [_ [_ [_ H]]]].
  split; [apply H; repeat constructor|].
  eexists. split; reflexivity.
Defined.

Lemma iloc_length rows positions rs :
  recommender.iloc rows positions = Returns rs -> length rs = length positions.
Proof.
  unfold recommender.iloc. revert rs.
  induction positions as [|i positions IH]; simpl; intros rs.
  - now intros [= <-].
  - destruct (nth_error rows i); simpl; [|discriminate].
    destruct (omapM _ positions) as [rs'| |]; simpl; try discriminate.
    intros [= <-]. simpl. f_equal. now apply IH.
Qed.

(** X27: the recommend route answers 422 for [n] outside [1..30] without
    looking anything up; when it returns, it echoes the title as given
    and carries between 1 and [n] recommendations, so at most 30. *)
Theorem X27_recommend_route (g : recommender.Globals) (title : string) (n : Z) :
  ((n < 1 \/ 30 < n)%Z -> main.recommend_movies g title n = Raises (HTTPException 422)) /\
  (forall t movies,
      main.recommend_movies g title n = Returns (t, movies) ->
      t = title /\ movies <> [] /\ (Z.of_nat (length movies) <= n <= 30)%Z).
Proof.
  unfold main.recommend_movies. split.
  - intros H. destruct (Z.ltb_spec n 1), (Z.ltb_spec 30 n); simpl; try reflexivity; lia.
  - intros t movies.
    destruct (Z.ltb_spec n 1), (Z.ltb_spec 30 n); simpl; try discriminate.
    unfold recommender.get_recommendations.
    destruct (recommender.resolve_title g title) as [[idx|]| |]; simpl; try discriminate.
    destruct (recommender.check_pairwise_arrays _ _); simpl; try discriminate.
    destruct (recommender.iloc _ _) as [rs| |] eqn:Hi; simpl; try discriminate.
    destruct (map recommender._build_movie rs) as [|m ms] eqn:Hm; [discriminate|].
    intros [= <- <-]. split; [reflexivity|]. split; [discriminate|].
    rewrite <- Hm, length_map.
    rewrite (iloc_length _ _ _ Hi). pose proof (movie_indices_length_le g idx n). lia.
Qed.

Lemma X27_recommend_route_witness :
  main.recommend_movies sample.g "Alien" 31 = Raises (HTTPException 422).
Proof.
  destruct (X27_recommend_route sample.g "Alien" 31) as [H _]. apply H. lia.
Defined.

(** X28: the search route answers 422 for an empty query; otherwise it
    passes on what [search_movies] does with limit 20, so a result
    echoes the query and holds at most 20 records, and a query such as a
    lone parenthesis surfaces as [re.error], not as an HTTP error of the
    route. *)
Theorem X28_search_route (g : recommender.Globals) (q : string) :
  (q = EmptyString -> main.search_movies g q = Raises (HTTPException 422)) /\
  (q <> EmptyString ->
   (forall e, recommender.search_movies g q 20 = Raises e -> main.search_movies g q = Raises e) /\
   (forall movies, recommender.search_movies g q 20 = Returns movies ->
                   main.search_movies g q = Returns (movies, q) /\ length movies <= 20)).
Proof.
  unfold main.search_movies. split; [now intros ->|].
  intros Hq. destruct q as [|c q]; [contradiction|]. simpl String.length. simpl Nat.ltb.
  split.
  - intros e H. now rewrite H.
  - intros movies H. rewrite H. simpl. split; [reflexivity|].
    unfold recommender.search_movies in H.
    destruct (py.str_contains _ _) as [mask| |]; simpl in H; try discriminate.
    injection H as <-. rewrite length_map.
    change 20%Z with (Z.of_nat 20). change 0%Z with (Z.of_nat 0).
    apply (slice_length_le _ 0 20).
Qed.

Lemma X28_search_route_witness :
  main.search_movies sample.g "(" = Raises re_error /\
  exists movies, main.search_movies sample.g "al" = Returns (movies, "al") /\
                 length movies <= 20.
Proof.
  destruct (X28_search_route sample.g "(") as [_ H1].
  destruct (X28_search_route sample.g "al") as [_ H2].
  destruct (H1 ltac:(discriminate)) as [Herr _].
  destruct (H2 ltac:(discriminate)) as [_ Hok].
  split; [apply Herr; reflexivity|].
  eexists. apply Hok. reflexivity.
Defined.

Lemma login_returns (verify_password : string -> string -> option bool)
    (create_access_token : string -> string) (user : models.UserLogin) (db : database.DB)
    (t : models.Token) :
  fst (main.login verify_password create_access_token user db) = Returns t ->
  models.token_username t = models.login_username user /\
  models.access_token t = create_access_token (models.login_username user).
Proof.
  unfold main.login, database.get_user_by_username. simpl.
  destruct (find _ (database.users db)) as [row|] eqn:Hf; simpl; [|discriminate].
  apply find_some in Hf as [_ Heq]. apply String.eqb_eq in Heq.
  destruct (verify_password _ _) as [[|]|]; simpl; try discriminate.
  intros [= <-]. simpl. now rewrite Heq.
Qed.

(** X29: the token [login] returns is [jwt.encode] of the username with
    an expiry 24 hours (86400000000 microseconds) after the call; when decoding gives back the
    subject that was encoded, [get_current_user] accepts that token as
    the user who logged in. Whatever the token, the only error of
    [get_current_user] is 401. *)
Theorem X29_login_token_authenticates (verify_password : string -> string -> option bool)
    (jwt_encode : option string -> Z -> string) (jwt_decode : string -> option (option string))
    (utcnow : Z) (user : models.UserLogin) (db : database.DB) :
  let issue := fun sub => auth.create_access_token jwt_encode utcnow (Some sub) None in
  (forall token e, auth.get_current_user jwt_decode token = Raises e ->
                   e = HTTPException 401) /\
  (forall t, fst (main.login verify_password issue user db) = Returns t ->
             models.access_token t
             = jwt_encode (Some (models.login_username user)) (utcnow + 86400000000)%Z /\
             ((forall sub exp, jwt_decode (jwt_encode sub exp) = Some sub) ->
              auth.get_current_user jwt_decode (models.access_token t)
              = Returns (models.login_username user))).
Proof.
  intros issue. split.
  - intros token e. unfold auth.get_current_user.
    destruct (jwt_decode token) as [[sub|]|]; [discriminate | |]; now intros [= <-].
  - intros t Ht.
    destruct (login_returns verify_password issue user db t Ht) as [Hname Htok].
    assert (Hacc : models.access_token t
                   = jwt_encode (Some (models.login_username user))
                                (utcnow + 86400000000)%Z).
    { rewrite Htok. reflexivity. }
    split; [exact Hacc|].
    intros Hjwt. unfold auth.get_current_user. now rewrite Hacc, Hjwt.
Qed.

Lemma X29_login_token_authenticates_witness :
  let db' := snd (main.register
                    (auth.hash_password sample.sha256_hex sample.bcrypt_hashpw "$2b$12$")
                    "2024-01-02T00:00:00" sample.bob sample.db) in
  let issue := fun sub => auth.create_access_token sample.jwt_encode 0 (Some sub) None in
  exists t,
    fst (main.login (auth.verify_password sample.sha256_hex sample.bcrypt_checkpw) issue
           {| models.login_username := "bob"; models.login_password := "secret1" |} db')
    = Returns t /\
    auth.get_current_user sample.jwt_decode (models.access_token t) = Returns "bob".
Proof.
  eexists. split; [reflexivity|].
  destruct (X29_login_token_authenticates
              (auth.verify_password sample.sha256_hex sample.bcrypt_checkpw)
              sample.jwt_encode sample.jwt_decode 0
              {| models.login_username := "bob"; models.login_password := "secret1" |}
              (snd (main.register
                      (auth.hash_password sample.sha256_hex sample.bcrypt_hashpw "$2b$12$")
                      "2024-01-02T00:00:00" sample.bob sample.db))) as [_ H].
  destruct (H _ eq_refl) as [_ Hauth].
  apply Hauth. intros [s|] exp; reflexivity.
Defined.
